(** * A shallow embedding of the E20 simulator [sim.py]

    The simulator keeps a program counter, eight registers and a memory of
    2^15 cells, all of them Python integers, and decodes each fetched cell
    through its binary text: [bin(memory[pc])[2:].zfill(16)], string
    slices and [int(_, 2)].  The embedding follows the source closely:
    Python integers are [Z], Python lists are [list Z] read and written
    with Python's index rules (negative indices count from the end, any
    other index outside the list raises), strings are lists of characters,
    and every operation that can raise lives in a small error monad.

    The handlers mutate [regs] and [memory] in place; here they return the
    lists they may have written.  The loader takes each line as the
    regular expression leaves it (no match, or the two digit groups).  The
    [while not halt] loop has no bound of its own: [main_loop] runs it for
    at most a given number of iterations and [after] gives the state after
    exactly that many, so that statements about every run quantify over
    the number of cycles. *)

From Stdlib Require Import ZArith Lia List Ascii String Bool.
From Stdlib Require DecimalString HexadecimalString.
From stdpp Require Import base tactics option list strings.
Import ListNotations.

#[local] Open Scope Z_scope.

(** ** Exceptions and the error monad *)

Inductive exn : Type :=
| IndexError
| ValueError
| CantParseLine
| OutOfSequence.

Inductive result (A : Type) : Type :=
| Ok (a : A)
| Raise (e : exn).

Arguments Ok {A} a.
Arguments Raise {A} e.

#[global] Instance exn_eq_dec : EqDecision exn.
Proof. solve_decision. Defined.

#[global] Instance result_eq_dec {A : Type} `{EqDecision A} :
  EqDecision (result A).
Proof. solve_decision. Defined.

Definition bind {A B : Type} (r : result A) (k : A -> result B) : result B :=
  match r with
  | Ok a => k a
  | Raise e => Raise e
  end.

Notation "'let*' p ':=' r 'in' k" := (bind r (fun p => k))
  (at level 10, p pattern, r at level 100, k at level 200).

(** ** Python strings, slices and integer conversions *)

Module Py.

(** A Python [str], as its list of characters. *)
Abbreviation str := (list ascii) (only parsing).

Definition lit (s : string) : str := list_ascii_of_string s.

(** [s[:b]], [s[a:]], [s[a:b]] for constant [0 <= a <= b], and [s[-n:]]. *)
Definition upto (b : nat) (s : str) : str := take b s.
Definition from (a : nat) (s : str) : str := drop a s.
Definition slice (a b : nat) (s : str) : str := take (b - a) (drop a s).
Definition last_n (n : nat) (s : str) : str := drop (length s - n) s.

(** [s[i]] for a constant [i >= 0]. *)
Definition char_at (s : str) (i : nat) : result ascii :=
  match s !! i with
  | Some c => Ok c
  | None => Raise IndexError
  end.

Definition str_eqb (s t : str) : bool := bool_decide (s = t).

(** The binary digits of a positive number, most significant first. *)
Fixpoint bin_pos (p : positive) : str :=
  match p with
  | xH => ["1"%char]
  | xO q => bin_pos q ++ ["0"%char]
  | xI q => bin_pos q ++ ["1"%char]
  end.

(** [bin(n)]: ["0b..."] for [n >= 0] and ["-0b..."] for [n < 0]. *)
Definition bin (n : Z) : str :=
  match n with
  | Z0 => lit "0b0"
  | Zpos p => lit "0b" ++ bin_pos p
  | Zneg p => lit "-0b" ++ bin_pos p
  end.

(** [s.zfill(width)]: zeros are inserted on the left, after a leading
    sign character if there is one. *)
Definition zfill (width : nat) (s : str) : str :=
  let pad := replicate (width - length s) "0"%char in
  match s with
  | c :: rest =>
      if bool_decide (c = "+"%char) || bool_decide (c = "-"%char)
      then c :: pad ++ rest
      else pad ++ s
  | [] => pad
  end.

Definition bit_of (c : ascii) : option Z :=
  if bool_decide (c = "0"%char) then Some 0
  else if bool_decide (c = "1"%char) then Some 1
  else None.

Fixpoint digits_acc (acc : Z) (s : str) : result Z :=
  match s with
  | [] => Ok acc
  | c :: rest =>
      match bit_of c with
      | Some d => digits_acc (2 * acc + d) rest
      | None => Raise ValueError
      end
  end.

(** [int(s, 2)] on the strings this program builds: characters of
    [bin] outputs and of decimal digit groups.  An optional ["0b"]
    prefix is skipped, then at least one binary digit is required.
    Signs, blanks and underscores, which [int] also accepts, never occur
    in those strings (see [instr_of_alphabet]) and are rejected here. *)
Definition int2 (s : str) : result Z :=
  let body :=
    match s with
    | z :: b :: rest =>
        if bool_decide (z = "0"%char)
           && (bool_decide (b = "b"%char) || bool_decide (b = "B"%char))
        then rest else s
    | _ => s
    end in
  match body with
  | [] => Raise ValueError
  | _ => digits_acc 0 body
  end.

(** Python list indexing: [-len <= i < 0] counts from the end. *)
Definition index_of (len : nat) (i : Z) : option nat :=
  let n := Z.of_nat len in
  if (0 <=? i) && (i <? n) then Some (Z.to_nat i)
  else if (- n <=? i) && (i <? 0) then Some (Z.to_nat (i + n))
  else None.

(** [l[i]] *)
Definition getitem {A : Type} (l : list A) (i : Z) : result A :=
  match index_of (length l) i with
  | Some k =>
      match l !! k with
      | Some x => Ok x
      | None => Raise IndexError
      end
  | None => Raise IndexError
  end.

(** [l[i] = v] *)
Definition setitem {A : Type} (l : list A) (i : Z) (v : A) : result (list A) :=
  match index_of (length l) i with
  | Some k => Ok (<[k:=v]> l)
  | None => Raise IndexError
  end.

End Py.

Import Py.

(** ** The simulator *)

Definition NUM_REGS : nat := 8.
Definition MEM_SIZE : Z := 2 ^ 15.
Definition REG_SIZE : Z := 2 ^ 16.

(** One line of the machine-code file after the regular expression
    [^ram\[(\d+)\] = 16'b(\d+);.*$]: either no match, or the two captured
    digit groups, the first already read as a decimal number. *)
Inductive line : Type :=
| NoMatch
| Matched (addr : N) (instr : str).

Fixpoint load_from (expectedaddr : Z) (machine_code : list line) (mem : list Z)
  : result (list Z) :=
  match machine_code with
  | [] => Ok mem
  | NoMatch :: _ => Raise CantParseLine
  | Matched addr instr :: rest =>
      let addr := Z.of_N addr in
      let* instr := int2 instr in
      if negb (addr =? expectedaddr) then Raise OutOfSequence
      else
        let* mem := setitem mem addr instr in
        load_from (expectedaddr + 1) rest mem
  end.

Definition load_machine_code (machine_code : list line) (mem : list Z)
  : result (list Z) :=
  load_from 0 machine_code mem.

(** Handlers mutate [regs] (and [memory]) in place and return the next pc;
    here they return the next pc together with the lists they may have
    written. *)

Definition threereg (pc : Z) (regs : list Z) (instr : str)
  : result (Z * list Z) :=
  let* dstIndex := int2 (slice 9 12 instr) in
  let* srcA_Index := int2 (slice 3 6 instr) in
  let* srcB_Index := int2 (slice 6 9 instr) in
  if str_eqb (last_n 4 instr) (lit "0000") then
    let* a := getitem regs srcA_Index in
    let* b := getitem regs srcB_Index in
    let* regs := setitem regs dstIndex ((a + b) mod 2 ^ 16) in
    Ok (pc + 1, regs)
  else if str_eqb (last_n 4 instr) (lit "0001") then
    let* a := getitem regs srcA_Index in
    let* b := getitem regs srcB_Index in
    let* regs := setitem regs dstIndex ((a - b) mod 2 ^ 16) in
    Ok (pc + 1, regs)
  else if str_eqb (last_n 4 instr) (lit "0010") then
    let* a := getitem regs srcA_Index in
    let* b := getitem regs srcB_Index in
    let* regs := setitem regs dstIndex (Z.land a b) in
    Ok (pc + 1, regs)
  else if str_eqb (last_n 4 instr) (lit "0011") then
    let* a := getitem regs srcA_Index in
    let* b := getitem regs srcB_Index in
    let* regs := setitem regs dstIndex (Z.lor a b) in
    Ok (pc + 1, regs)
  else if str_eqb (last_n 4 instr) (lit "0100") then
    let* a := getitem regs srcA_Index in
    let* b := getitem regs srcB_Index in
    let* regs := setitem regs dstIndex (if a <? b then 1 else 0) in
    Ok (pc + 1, regs)
  else if str_eqb (last_n 4 instr) (lit "1000") then
    let* a := getitem regs srcA_Index in
    Ok (a, regs)
  else Ok (pc + 1, regs).

Definition tworegImm (pc : Z) (regs : list Z) (instr : str)
  : result (Z * list Z) :=
  let* dstIndex := int2 (slice 6 9 instr) in
  let* srcIndex := int2 (slice 3 6 instr) in
  let* imm := int2 (from 10 instr) in
  let* sign := char_at instr 9 in
  let imm := if bool_decide (sign = "1"%char) then imm - 64 else imm in
  if str_eqb (upto 3 instr) (lit "001") then
    let* a := getitem regs srcIndex in
    let* regs := setitem regs dstIndex (if a <? imm mod 2 ^ 16 then 1 else 0) in
    Ok (pc + 1, regs)
  else if str_eqb (upto 3 instr) (lit "111") then
    let* a := getitem regs srcIndex in
    let* regs := setitem regs dstIndex ((a + imm) mod 2 ^ 16) in
    Ok (pc + 1, regs)
  else Ok (pc + 1, regs).

Definition memImm (pc : Z) (regs memory : list Z) (instr : str)
  : result (Z * list Z * list Z) :=
  let* addrIndex := int2 (slice 3 6 instr) in
  let* imm := int2 (from 10 instr) in
  let* sign := char_at instr 9 in
  let imm := if bool_decide (sign = "1"%char) then imm - 64 else imm in
  if str_eqb (upto 3 instr) (lit "100") then
    let* dstIndex := int2 (slice 6 9 instr) in
    let* base := getitem regs addrIndex in
    let* v := getitem memory (base + imm) in
    let* regs := setitem regs dstIndex v in
    Ok (pc + 1, regs, memory)
  else if str_eqb (upto 3 instr) (lit "101") then
    let* srcIndex := int2 (slice 6 9 instr) in
    let* v := getitem regs srcIndex in
    let* base := getitem regs addrIndex in
    let* memory := setitem memory (base + imm) v in
    Ok (pc + 1, regs, memory)
  else Ok (pc + 1, regs, memory).

Definition jeq (pc : Z) (regs : list Z) (instr : str) : result Z :=
  let* regA_Index := int2 (slice 3 6 instr) in
  let* regB_Index := int2 (slice 6 9 instr) in
  let* rel_imm := int2 (from 10 instr) in
  let* sign := char_at instr 9 in
  let rel_imm := if bool_decide (sign = "1"%char) then rel_imm - 64 else rel_imm in
  let* a := getitem regs regA_Index in
  let* b := getitem regs regB_Index in
  if a =? b then Ok (pc + 1 + rel_imm) else Ok (pc + 1).

(** Returns the pair [(imm, halt)] of the source and the register list. *)
Definition j_or_jal (pc : Z) (regs : list Z) (instr : str)
  : result (Z * bool * list Z) :=
  let* regs := (if str_eqb (upto 3 instr) (lit "011")
                then setitem regs 7 (pc + 1) else Ok regs) in
  let* imm := int2 (from 3 instr) in
  if pc =? imm then Ok (imm, true, regs) else Ok (imm, false, regs).

(** The machine state of [main]: [pc], [regs], [memory]. *)
Record machine : Type := Machine {
  pc : Z;
  regs : list Z;
  memory : list Z
}.

#[global] Instance machine_eq_dec : EqDecision machine.
Proof. solve_decision. Defined.

(** [bin(memory[pc])[2:].zfill(16)] *)
Definition instr_of (w : Z) : str := zfill 16 (from 2 (bin w)).

Definition fetch (m : machine) : result str :=
  let* w := getitem (memory m) (pc m) in
  Ok (instr_of w).

(** One iteration of the body of [while not halt]; the boolean is the
    value of [halt] after it. *)
Definition cycle (m : machine) : result (machine * bool) :=
  let* instr := fetch m in
  if str_eqb (upto 3 instr) (lit "000") then
    let* (pc', regs') := threereg (pc m) (regs m) instr in
    Ok (Machine pc' regs' (memory m), false)
  else if str_eqb (upto 3 instr) (lit "001")
          || str_eqb (upto 3 instr) (lit "111") then
    let* (pc', regs') := tworegImm (pc m) (regs m) instr in
    Ok (Machine pc' regs' (memory m), false)
  else if str_eqb (upto 2 instr) (lit "10") then
    let* (pc', regs', memory') := memImm (pc m) (regs m) (memory m) instr in
    Ok (Machine pc' regs' memory', false)
  else if str_eqb (upto 3 instr) (lit "110") then
    let* pc' := jeq (pc m) (regs m) instr in
    Ok (Machine pc' (regs m) (memory m), false)
  else if str_eqb (upto 2 instr) (lit "01") then
    let* (imm, halted, regs') := j_or_jal (pc m) (regs m) instr in
    if halted then Ok (Machine (pc m) regs' (memory m), true)
    else Ok (Machine imm regs' (memory m), false)
  else Ok (m, false).

(** How a bounded run of the loop ends: the state handed to
    [print_state], an exception, or the bound reached while running. *)
Inductive outcome : Type :=
| Final (m : machine)
| Aborted (e : exn)
| StillRunning (m : machine).

(** [while not halt: ...], at most [fuel] iterations. *)
Fixpoint main_loop (fuel : nat) (halt : bool) (m : machine) : outcome :=
  if halt then Final m
  else
    match fuel with
    | O => StillRunning m
    | S fuel' =>
        match cycle m with
        | Ok (m', halt') => main_loop fuel' halt' m'
        | Raise e => Aborted e
        end
    end.

(** The state after [n] completed iterations (the loop stays where it is
    once [halt] is set). *)
Fixpoint after (n : nat) (m : machine) : result (machine * bool) :=
  match n with
  | O => Ok (m, false)
  | S k =>
      let* (m', halt) := after k m in
      if halt then Ok (m', true) else cycle m'
  end.

Definition initial (memory : list Z) : machine :=
  Machine 0 (replicate NUM_REGS 0) memory.

(** [main]: set up the state, load the program, run the loop. *)
Definition main (machine_code : list line) (fuel : nat) : outcome :=
  match load_machine_code machine_code (replicate (Z.to_nat MEM_SIZE) 0) with
  | Ok memory => main_loop fuel false (initial memory)
  | Raise e => Aborted e
  end.

(** ** Reading instruction words

    Vocabulary for the statements below: binary-digit strings, the number
    they denote, and the fields of a well-formed 16-character word. *)

Definition is_bit (c : ascii) : Prop := c = "0"%char \/ c = "1"%char.

Definition bits (s : str) : Prop := Forall is_bit s.

Fixpoint val_acc (acc : Z) (s : str) : Z :=
  match s with
  | [] => acc
  | c :: rest =>
      val_acc (2 * acc + (if bool_decide (c = "1"%char) then 1 else 0)) rest
  end.

(** The number a digit string denotes, most significant digit first. *)
Definition val (s : str) : Z := val_acc 0 s.

(** The text of a 16-bit word: sixteen binary digits. *)
Definition wf16 (instr : str) : Prop := length instr = 16%nat /\ bits instr.

#[global] Instance is_bit_dec c : Decision (is_bit c).
Proof. unfold is_bit. apply _. Defined.

#[global] Instance bits_dec s : Decision (bits s).
Proof. unfold bits. apply _. Defined.

#[global] Instance wf16_dec instr : Decision (wf16 instr).
Proof. unfold wf16. apply _. Defined.

(** The six function codes of the three-register family. *)
Definition function_codes : list str :=
  [lit "0000"; lit "0001"; lit "0010"; lit "0011"; lit "0100"; lit "1000"].

(** The register named by the three digits [instr[a:b]]. *)
Definition reg_field (a b : nat) (instr : str) : nat :=
  Z.to_nat (val (slice a b instr)).

(** The 7-bit immediate field [instr[9:16]], sign bit included. *)
Definition field7 (instr : str) : Z := val (from 9 instr).

(** Its two's-complement reading, in [-64, 63]. *)
Definition simm7 (instr : str) : Z :=
  if 64 <=? field7 instr then field7 instr - 128 else field7 instr.

(** The immediate as the specification words it: the value of the
    seven-digit field, less 64 when its leading digit is a one. *)
Definition claimed_imm (instr : str) : Z :=
  match instr !! 9%nat with
  | Some c => if bool_decide (c = "1"%char)
              then field7 instr - 64 else field7 instr
  | None => field7 instr
  end.

(** A line whose second group has at most sixteen digits, as the file
    format asks. *)
Definition sixteen_digits (l : line) : Prop :=
  match l with
  | NoMatch => True
  | Matched _ instr => (length instr <= 16)%nat
  end.

#[global] Instance sixteen_digits_dec l : Decision (sixteen_digits l).
Proof. destruct l; simpl; apply _. Defined.

(** The memory [main] builds from the words of a program: the words, then
    zeros up to [MEM_SIZE] cells. *)
Definition image (words : list Z) : list Z :=
  words ++ replicate (Z.to_nat MEM_SIZE - length words) 0.

(** A value that fits a 16-bit word. *)
Definition word_ok (v : Z) : Prop := 0 <= v < REG_SIZE.

Definition state_ok (m : machine) : Prop :=
  Forall word_ok (regs m) /\ Forall word_ok (memory m)
  /\ length (regs m) = NUM_REGS /\ Z.of_nat (length (memory m)) = MEM_SIZE.

(** ** Sample programs and states *)

(** [addi $1, $0, 5]; [addi $2, $0, 3]; [add $3, $1, $2]; [j 3]. *)
Definition prog_add : list line :=
  [ Matched 0 (lit "1110000010000101");
    Matched 1 (lit "1110000100000011");
    Matched 2 (lit "0000010100110000");
    Matched 3 (lit "0100000000000011") ].

(** The memory after loading [prog_add]. *)
Definition image_add : list Z := image [57477; 57603; 1328; 16387].

(** [jeq $0, $0, -2] at address 0. *)
Definition prog_back : list line := [Matched 0 (lit "1100000001111110")].

(** The memory after loading [prog_back]. *)
Definition image_back : list Z := image [49278].

(** [addi $1, $0, 48]; nine times [add $1, $1, $1]; [sw $1, -2($0)];
    [jeq $0, $0, -14]. *)
Definition prog_link : list line :=
  [ Matched 0 (lit "1110000010110000");
    Matched 1 (lit "0000010010010000");
    Matched 2 (lit "0000010010010000");
    Matched 3 (lit "0000010010010000");
    Matched 4 (lit "0000010010010000");
    Matched 5 (lit "0000010010010000");
    Matched 6 (lit "0000010010010000");
    Matched 7 (lit "0000010010010000");
    Matched 8 (lit "0000010010010000");
    Matched 9 (lit "0000010010010000");
    Matched 10 (lit "1010000011111110");
    Matched 11 (lit "1100000001110010") ].

(** The memory after loading [prog_link]. *)
Definition image_link : list Z :=
  image [57520; 1168; 1168; 1168; 1168; 1168; 1168; 1168; 1168; 1168;
         41214; 49266].

(** [addi $1, $0, -1] *)
Definition addi_minus_1 : str := lit "1110000011111111".

(** [lw $1, -1($0)] *)
Definition lw_minus_1 : str := lit "1000000011111111".

(** [jeq $0, $0, -2] *)
Definition jeq_minus_2 : str := lit "1100000001111110".

(** [addi $1, $0, -1]; [jr $1]. *)
Definition prog_far : list line :=
  [ Matched 0 (lit "1110000011111111");
    Matched 1 (lit "0000010000001000") ].

(** A machine at pc 3 whose cell 3 holds [j 3]. *)
Definition at_self_j : machine :=
  Machine 3 (replicate NUM_REGS 0) [0; 0; 0; 16387; 0].

(** A machine at pc 3 whose cell 3 holds [jal 3]. *)
Definition at_self_jal : machine :=
  Machine 3 (replicate NUM_REGS 0) [0; 0; 0; 24579; 0].

(** A machine about to run [jal 1] from cell 0. *)
Definition at_jal_1 : machine :=
  Machine 0 [11; 12; 13; 14; 15; 16; 17; 18] [24577; 0; 0].

(** What [print_state] reports of a finished run: pc and registers. *)
Definition report (o : outcome) : option (Z * list Z) :=
  match o with
  | Final m => Some (pc m, regs m)
  | _ => None
  end.

#[global] Instance outcome_eq_dec : EqDecision outcome.
Proof. solve_decision. Defined.

(** ** The machine-code file

    Vocabulary for the loader: the lines [ram[start] = 16'b<g0>;],
    [ram[start+1] = 16'b<g1>;], ... that carry the digit groups [g0],
    [g1], ... at consecutive addresses. *)

Fixpoint numbered (start : N) (groups : list str) : list line :=
  match groups with
  | [] => []
  | g :: rest => Matched start g :: numbered (N.succ start) rest
  end.

(** Each digit group is read by [int(_, 2)] as the word beside it. *)
Definition reads (groups : list str) (words : list Z) : Prop :=
  Forall2 (fun g w => int2 g = Ok w) groups words.

(** Three digit groups: a full word, a short group, a full word. *)
Definition groups_demo : list str :=
  [lit "1110000010000101"; lit "101"; lit "0100000000000010"].

(** ** The final report *)

(** [str(n)], which is also [format(n, "d")]. *)
Definition str_of_int (n : Z) : str :=
  list_ascii_of_string (DecimalString.NilZero.string_of_int (Z.to_int n)).

(** [format(n, "x")] *)
Definition hex_of_int (n : Z) : str :=
  list_ascii_of_string (HexadecimalString.NilZero.string_of_int (Z.to_hex_int n)).

(** [format(n, "5d")]: right-aligned in five columns. *)
Definition format_5d (n : Z) : str :=
  let s := str_of_int n in replicate (5 - length s) " "%char ++ s.

(** [format(n, "04x")]: zero-filled to four columns, after the sign. *)
Definition format_04x (n : Z) : str := zfill 4 (hex_of_int n).

Definition tab : ascii := "009"%char.

(** The loop over [enumerate(regs)] of [print_state], from index [reg]
    on: one printed line per register. *)
Fixpoint print_regs (reg : nat) (regs : list Z) : list str :=
  match regs with
  | [] => []
  | regval :: rest =>
      (tab :: lit "$" ++ str_of_int (Z.of_nat reg) ++ lit "=" ++ format_5d regval)
      :: print_regs (S reg) rest
  end.

(** The loop over [range(memquantity)] of [print_state] and its final
    [if line != ""]: the lines printed, and whether the loop raised.  A
    line under construction is lost when [memory[count]] raises. *)
Fixpoint print_memory (memory : list Z) (counts : list Z) (line : str)
  : list str * result unit :=
  match counts with
  | [] => (if bool_decide (line = []) then [] else [line], Ok tt)
  | count :: rest =>
      match getitem memory count with
      | Raise e => ([], Raise e)
      | Ok w =>
          let line := line ++ format_04x w ++ lit " " in
          if count mod 8 =? 7 then
            let (out, r) := print_memory memory rest [] in (line :: out, r)
          else print_memory memory rest line
      end
  end.

(** [print_state]: the lines written to standard output, in order, and
    [Ok tt] or the exception that ended the call. *)
Definition print_state (pc : Z) (regs memory : list Z) (memquantity : Z)
  : list str * result unit :=
  let (out, r) := print_memory memory (seqZ 0 memquantity) [] in
  ([lit "Final state:"; tab :: lit "pc=" ++ format_5d pc]
     ++ print_regs 0 regs ++ out, r).

(** [check] on every number of [base, base + 2^k). *)
Fixpoint all_below (k : nat) (base : Z) (check : Z -> bool) : bool :=
  match k with
  | O => check base
  | S k' => all_below k' base check && all_below k' (base + 2 ^ Z.of_nat k') check
  end.

(** ** Lemmas on the Python primitives *)

Section ListAccess.
Context {A : Type} `{Inhabited A}.
Implicit Types (l : list A) (i : Z).

Lemma index_of_nonneg (len : nat) i :
  0 <= i < Z.of_nat len -> index_of len i = Some (Z.to_nat i).
Proof.
  intros Hi. unfold index_of.
  destruct (0 <=? i) eqn:E1; [|lia].
  destruct (i <? Z.of_nat len) eqn:E2; [reflexivity|lia].
Qed.

Lemma index_of_neg (len : nat) i :
  - Z.of_nat len <= i < 0 ->
  index_of len i = Some (Z.to_nat (i + Z.of_nat len)).
Proof.
  intros Hi. unfold index_of.
  destruct (0 <=? i) eqn:E1; [lia|]. simpl.
  destruct (- Z.of_nat len <=? i) eqn:E2; [|lia].
  destruct (i <? 0) eqn:E3; [reflexivity|lia].
Qed.

Lemma index_of_out (len : nat) i :
  i < - Z.of_nat len \/ Z.of_nat len <= i -> index_of len i = None.
Proof.
  intros Hi. unfold index_of.
  destruct (0 <=? i) eqn:E1, (i <? Z.of_nat len) eqn:E2,
    (- Z.of_nat len <=? i) eqn:E3, (i <? 0) eqn:E4; simpl; try reflexivity; lia.
Qed.

Lemma index_of_lt (len : nat) i k : index_of len i = Some k -> (k < len)%nat.
Proof.
  unfold index_of.
  destruct (0 <=? i) eqn:E1, (i <? Z.of_nat len) eqn:E2,
    (- Z.of_nat len <=? i) eqn:E3, (i <? 0) eqn:E4; simpl;
    intros [= <-]; lia.
Qed.

Lemma getitem_nonneg l i :
  0 <= i < Z.of_nat (length l) -> getitem l i = Ok (l !!! Z.to_nat i).
Proof.
  intros Hi. unfold getitem. rewrite index_of_nonneg by exact Hi.
  rewrite list_lookup_lookup_total_lt by lia. reflexivity.
Qed.

Lemma getitem_neg l i :
  - Z.of_nat (length l) <= i < 0 ->
  getitem l i = Ok (l !!! Z.to_nat (i + Z.of_nat (length l))).
Proof.
  intros Hi. unfold getitem. rewrite index_of_neg by exact Hi.
  rewrite list_lookup_lookup_total_lt by lia. reflexivity.
Qed.

Lemma getitem_out l i :
  i < - Z.of_nat (length l) \/ Z.of_nat (length l) <= i ->
  getitem l i = Raise IndexError.
Proof. intros Hi. unfold getitem. by rewrite index_of_out. Qed.

Lemma getitem_Ok l i x :
  getitem l i = Ok x ->
  exists k, index_of (length l) i = Some k /\ l !! k = Some x.
Proof.
  unfold getitem. destruct (index_of (length l) i) as [k|]; [|discriminate].
  destruct (l !! k) as [y|] eqn:E; [|discriminate].
  intros [= <-]. eauto.
Qed.

Lemma setitem_nonneg l i v :
  0 <= i < Z.of_nat (length l) -> setitem l i v = Ok (<[Z.to_nat i := v]> l).
Proof. intros Hi. unfold setitem. by rewrite index_of_nonneg. Qed.

Lemma setitem_neg l i v :
  - Z.of_nat (length l) <= i < 0 ->
  setitem l i v = Ok (<[Z.to_nat (i + Z.of_nat (length l)) := v]> l).
Proof. intros Hi. unfold setitem. by rewrite index_of_neg. Qed.

Lemma setitem_Ok l i v l' :
  setitem l i v = Ok l' ->
  exists k, index_of (length l) i = Some k /\ l' = <[k := v]> l.
Proof.
  unfold setitem. destruct (index_of (length l) i) as [k|]; [|discriminate].
  intros [= <-]. eauto.
Qed.

Lemma setitem_length l i v l' : setitem l i v = Ok l' -> length l' = length l.
Proof.
  intros (k & _ & ->)%setitem_Ok. apply length_insert.
Qed.

End ListAccess.

(** ** Digit strings and the numbers they denote *)

Lemma bit_of_is_bit c : is_bit c ->
  bit_of c = Some (if bool_decide (c = "1"%char) then 1 else 0).
Proof. intros [-> | ->]; reflexivity. Qed.

Lemma bit_of_Some c d : bit_of c = Some d ->
  is_bit c /\ d = (if bool_decide (c = "1"%char) then 1 else 0).
Proof.
  unfold bit_of, is_bit.
  destruct (bool_decide (c = "0"%char)) eqn:E0.
  - apply bool_decide_eq_true_1 in E0 as ->. intros [= <-]. auto.
  - destruct (bool_decide (c = "1"%char)) eqn:E1; [|discriminate].
    apply bool_decide_eq_true_1 in E1 as ->. intros [= <-]. auto.
Qed.

Lemma val_acc_shift s : forall acc,
  val_acc acc s = acc * 2 ^ Z.of_nat (length s) + val s.
Proof.
  unfold val. induction s as [|c s IH]; intros acc.
  - simpl. lia.
  - cbn [val_acc length]. rewrite IH, (IH (2 * 0 + _)).
    rewrite Nat2Z.inj_succ, Z.pow_succ_r by lia. lia.
Qed.

Lemma val_cons c s :
  val (c :: s)
  = (if bool_decide (c = "1"%char) then 1 else 0) * 2 ^ Z.of_nat (length s) + val s.
Proof. unfold val at 1. cbn [val_acc]. rewrite val_acc_shift. lia. Qed.

Lemma val_app s t : val (s ++ t) = val s * 2 ^ Z.of_nat (length t) + val t.
Proof.
  induction s as [|c s IH].
  - simpl. unfold val at 2. simpl. lia.
  - rewrite <- app_comm_cons, !val_cons, IH, length_app, Nat2Z.inj_add,
      Z.pow_add_r by lia. lia.
Qed.

Lemma val_bound s : 0 <= val s < 2 ^ Z.of_nat (length s).
Proof.
  induction s as [|c s IH].
  - unfold val. simpl. lia.
  - rewrite val_cons. cbn [length]. rewrite Nat2Z.inj_succ, Z.pow_succ_r by lia.
    case_bool_decide; lia.
Qed.

Lemma val_replicate_zero n s : val (replicate n "0"%char ++ s) = val s.
Proof.
  induction n as [|n IH]; [reflexivity|].
  cbn [replicate app]. rewrite val_cons, IH. simpl. lia.
Qed.

Lemma digits_acc_bits s : forall acc,
  bits s -> digits_acc acc s = Ok (val_acc acc s).
Proof.
  induction s as [|c s IH]; intros acc Hs; [reflexivity|].
  apply Forall_cons in Hs as [Hc Hs]. cbn [digits_acc val_acc].
  rewrite (bit_of_is_bit _ Hc). by apply IH.
Qed.

Lemma digits_acc_Ok s : forall acc v,
  digits_acc acc s = Ok v -> bits s /\ v = val_acc acc s.
Proof.
  induction s as [|c s IH]; intros acc v.
  - simpl. intros [= <-]. split; [constructor | reflexivity].
  - cbn [digits_acc val_acc]. destruct (bit_of c) as [d|] eqn:E; [|discriminate].
    apply bit_of_Some in E as [Hc ->]. intros [Hs ->]%IH.
    split; [by constructor | reflexivity].
Qed.

Lemma is_bit_not_b c : is_bit c -> c <> "b"%char /\ c <> "B"%char.
Proof. intros [-> | ->]; split; discriminate. Qed.

(** On a non-empty string of binary digits, [int(s, 2)] is its value. *)
Lemma int2_bits s : bits s -> s <> [] -> int2 s = Ok (val s).
Proof.
  intros Hs Hne. unfold int2.
  destruct s as [|z [|b rest]]; [done | |].
  - by rewrite digits_acc_bits.
  - assert (Hb : is_bit b).
    { apply Forall_cons in Hs as [_ Hs]. by apply Forall_cons in Hs as [? _]. }
    apply is_bit_not_b in Hb as [Hb1 Hb2].
    rewrite (bool_decide_eq_false_2 _ Hb1), (bool_decide_eq_false_2 _ Hb2).
    rewrite andb_false_r. by rewrite digits_acc_bits.
Qed.

(** Whatever [int(s, 2)] accepts is non-negative and below [2 ^ len(s)]. *)
Lemma int2_Ok_bound s v : int2 s = Ok v -> 0 <= v < 2 ^ Z.of_nat (length s).
Proof.
  unfold int2.
  assert (Hgen : forall t, digits_acc 0 t = Ok v ->
                 0 <= v < 2 ^ Z.of_nat (length t)).
  { intros t [_ ->]%digits_acc_Ok. apply val_bound. }
  assert (Hmono : forall a b : nat, (a <= b)%nat ->
                  2 ^ Z.of_nat a <= 2 ^ Z.of_nat b).
  { intros a b Hab. apply Z.pow_le_mono_r; lia. }
  destruct s as [|z [|b rest]]; [discriminate | |].
  - apply Hgen.
  - destruct (bool_decide (z = "0"%char)
              && (bool_decide (b = "b"%char) || bool_decide (b = "B"%char))).
    + destruct rest as [|r rest]; [discriminate|].
      intros Hv%Hgen. specialize (Hmono (length (r :: rest)) (length (z :: b :: r :: rest))).
      cbn [length] in *. lia.
    + apply Hgen.
Qed.

Lemma bits_app s t : bits s -> bits t -> bits (s ++ t).
Proof. apply Forall_app_2. Qed.

Lemma bits_take n s : bits s -> bits (take n s).
Proof. apply Forall_take. Qed.

Lemma bits_drop n s : bits s -> bits (drop n s).
Proof. apply Forall_drop. Qed.

Lemma bits_replicate_zero n : bits (replicate n "0"%char).
Proof. apply Forall_replicate. by left. Qed.

(** ** The text of a fetched word *)

Lemma bits_one : bits ["1"%char].
Proof. apply Forall_singleton. by right. Qed.

Lemma bits_zero : bits ["0"%char].
Proof. apply Forall_singleton. by left. Qed.

Lemma bin_pos_bits p : bits (bin_pos p).
Proof.
  induction p; cbn [bin_pos];
    auto using bits_app, bits_one, bits_zero.
Qed.

Lemma bin_pos_val p : val (bin_pos p) = Zpos p.
Proof.
  induction p; cbn [bin_pos].
  - rewrite val_app, IHp. change (val ["1"%char]) with 1.
    change (2 ^ Z.of_nat (length ["1"%char])) with 2. lia.
  - rewrite val_app, IHp. change (val ["0"%char]) with 0.
    change (2 ^ Z.of_nat (length ["0"%char])) with 2. lia.
  - reflexivity.
Qed.

Lemma bin_pos_head p : exists r, bin_pos p = "1"%char :: r.
Proof.
  induction p as [p [r Hr]|p [r Hr]|]; cbn [bin_pos].
  - rewrite Hr. eauto.
  - rewrite Hr. eauto.
  - eauto.
Qed.

(** The leading digit is a one: [2 ^ len <= 2 * p]. *)
Lemma bin_pos_length_le p : 2 ^ Z.of_nat (length (bin_pos p)) <= 2 * Zpos p.
Proof.
  induction p; cbn [bin_pos].
  - rewrite length_app. cbn [length]. rewrite Nat2Z.inj_add, Z.pow_add_r by lia.
    change (2 ^ Z.of_nat 1) with 2. lia.
  - rewrite length_app. cbn [length]. rewrite Nat2Z.inj_add, Z.pow_add_r by lia.
    change (2 ^ Z.of_nat 1) with 2. lia.
  - simpl. lia.
Qed.

Lemma bin_pos_length_lt p (n : nat) :
  Zpos p < 2 ^ Z.of_nat n -> (length (bin_pos p) <= n)%nat.
Proof.
  intros Hp. pose proof (bin_pos_length_le p) as Hle.
  destruct (decide (length (bin_pos p) <= n)%nat) as [|Hgt]; [done|].
  exfalso.
  assert (2 ^ Z.of_nat (S n) <= 2 ^ Z.of_nat (length (bin_pos p))).
  { apply Z.pow_le_mono_r; lia. }
  rewrite Nat2Z.inj_succ, Z.pow_succ_r in * by lia. lia.
Qed.

Lemma bin_pos_length_ge p (n : nat) :
  2 ^ Z.of_nat n <= Zpos p -> (n < length (bin_pos p))%nat.
Proof.
  intros Hp. pose proof (val_bound (bin_pos p)) as Hb. rewrite bin_pos_val in Hb.
  destruct (decide (n < length (bin_pos p))%nat) as [|Hge]; [done|].
  exfalso.
  assert (2 ^ Z.of_nat (length (bin_pos p)) <= 2 ^ Z.of_nat n).
  { apply Z.pow_le_mono_r; lia. }
  lia.
Qed.

(** Digit strings carry no sign, so [zfill] pads them on the left. *)
Lemma zfill_bits n s :
  bits s -> zfill n s = replicate (n - length s) "0"%char ++ s.
Proof.
  intros Hs. unfold zfill. destruct s as [|c rest]; [by rewrite app_nil_r|].
  apply Forall_cons in Hs as [[-> | ->] _]; reflexivity.
Qed.

Lemma instr_of_pos p :
  instr_of (Zpos p)
  = replicate (16 - length (bin_pos p)) "0"%char ++ bin_pos p.
Proof.
  unfold instr_of, from, bin. cbn [lit list_ascii_of_string app drop].
  apply zfill_bits, bin_pos_bits.
Qed.

Lemma instr_of_neg p :
  instr_of (Zneg p)
  = replicate (16 - S (length (bin_pos p))) "0"%char ++ "b"%char :: bin_pos p.
Proof. reflexivity. Qed.

(** A word in [0, 2^16) is fetched as sixteen binary digits that denote it. *)
Lemma instr_of_wf16 w : 0 <= w < 2 ^ 16 -> wf16 (instr_of w) /\ val (instr_of w) = w.
Proof.
  intros Hw. destruct w as [|p|p]; [| |lia].
  - split; [split; [reflexivity|]|reflexivity].
    apply (bits_replicate_zero 16).
  - rewrite instr_of_pos.
    assert (Hlen : (length (bin_pos p) <= 16)%nat) by (apply bin_pos_length_lt; lia).
    split; [split|].
    + rewrite length_app, length_replicate. lia.
    + apply bits_app; [apply bits_replicate_zero | apply bin_pos_bits].
    + rewrite val_replicate_zero. apply bin_pos_val.
Qed.

(** Only a word in [0, 2^16) is dispatched as an absolute jump: a larger
    word starts with a one, a negative word with ["b"], ["0b"] or ["00"]. *)
Lemma jump_prefix_word w :
  upto 2 (instr_of w) = lit "01" -> 0 <= w < 2 ^ 16.
Proof.
  intros Hpre. destruct w as [|p|p].
  - lia.
  - split; [lia|].
    destruct (Z_lt_le_dec (Zpos p) (2 ^ 16)) as [|Hge]; [done|]. exfalso.
    assert (Hlen : (16 < length (bin_pos p))%nat)
      by (apply bin_pos_length_ge; lia).
    rewrite instr_of_pos in Hpre.
    replace (16 - length (bin_pos p))%nat with 0%nat in Hpre by lia.
    destruct (bin_pos_head p) as [r Hr]. rewrite Hr in Hpre. discriminate.
  - exfalso. rewrite instr_of_neg in Hpre.
    destruct (16 - S (length (bin_pos p)))%nat as [|[|k]]; discriminate.
Qed.

Lemma fetch_Ok m instr :
  fetch m = Ok instr ->
  exists w, getitem (memory m) (pc m) = Ok w /\ instr = instr_of w.
Proof.
  unfold fetch. destruct (getitem (memory m) (pc m)) as [w|e]; [|discriminate].
  intros [= <-]. eauto.
Qed.

Lemma fetch_jump_wf16 m instr :
  fetch m = Ok instr -> upto 2 instr = lit "01" -> wf16 instr.
Proof.
  intros (w & _ & ->)%fetch_Ok Hpre.
  by apply instr_of_wf16, jump_prefix_word.
Qed.

(** Whatever the word, its text is made of ["0"], ["1"] and ["b"] only:
    no sign, blank or underscore reaches [int2]. *)
Lemma instr_of_alphabet w :
  Forall (fun c => is_bit c \/ c = "b"%char) (instr_of w).
Proof.
  assert (Hbits : forall s, bits s ->
                  Forall (fun c => is_bit c \/ c = "b"%char) s).
  { intros s Hs. eapply Forall_impl; [exact Hs|]. intros c Hc. by left. }
  destruct w as [|p|p].
  - apply Hbits, (bits_replicate_zero 16).
  - rewrite instr_of_pos.
    apply Hbits, bits_app; [apply bits_replicate_zero | apply bin_pos_bits].
  - rewrite instr_of_neg. apply Forall_app_2.
    + apply Hbits, bits_replicate_zero.
    + apply Forall_cons. split; [by right|]. apply Hbits, bin_pos_bits.
Qed.

(** ** Fields of a well-formed word *)

Lemma wf16_slice_bits a b instr : wf16 instr -> bits (slice a b instr).
Proof. intros [_ Hb]. by apply bits_take, bits_drop. Qed.

Lemma wf16_slice_length a b instr :
  wf16 instr -> (a <= b <= 16)%nat -> length (slice a b instr) = (b - a)%nat.
Proof.
  intros [Hlen _] Hab. unfold slice. rewrite length_take, length_drop. lia.
Qed.

Lemma wf16_from_bits a instr : wf16 instr -> bits (from a instr).
Proof. intros [_ Hb]. by apply bits_drop. Qed.

Lemma wf16_from_length a instr :
  wf16 instr -> length (from a instr) = (16 - a)%nat.
Proof. intros [Hlen _]. unfold from. rewrite length_drop. lia. Qed.

Lemma nonempty_length {A} (l : list A) : (0 < length l)%nat -> l <> [].
Proof. destruct l; simpl; [lia | discriminate]. Qed.

(** A three-digit field parses to a register index below 8. *)
Lemma int2_reg_field a instr :
  wf16 instr -> (a + 3 <= 16)%nat ->
  int2 (slice a (a + 3) instr) = Ok (Z.of_nat (reg_field a (a + 3) instr))
  /\ (reg_field a (a + 3) instr < 8)%nat.
Proof.
  intros Hwf Ha.
  pose proof (wf16_slice_length a (a + 3) instr Hwf ltac:(lia)) as Hlen.
  pose proof (val_bound (slice a (a + 3) instr)) as Hb. rewrite Hlen in Hb.
  replace (a + 3 - a)%nat with 3%nat in * by lia.
  change (2 ^ Z.of_nat 3) with 8 in Hb.
  unfold reg_field. split; [|lia].
  rewrite int2_bits.
  - f_equal. lia.
  - by apply wf16_slice_bits.
  - apply nonempty_length. lia.
Qed.

Lemma int2_from a instr :
  wf16 instr -> (a < 16)%nat -> int2 (from a instr) = Ok (val (from a instr)).
Proof.
  intros Hwf Ha. apply int2_bits; [by apply wf16_from_bits|].
  apply nonempty_length. rewrite wf16_from_length by done. lia.
Qed.

Lemma wf16_char_at instr i :
  wf16 instr -> (i < 16)%nat ->
  exists c, char_at instr i = Ok c /\ instr !! i = Some c /\ is_bit c.
Proof.
  intros [Hlen Hb] Hi. unfold char_at.
  destruct (lookup_lt_is_Some_2 instr i ltac:(lia)) as [c Hc].
  rewrite Hc. exists c. split; [done|]. split; [done|].
  eapply Forall_lookup_1; eauto.
Qed.

(** The sign convention of the three immediate handlers: the six low
    digits, less 64 when the seventh is a one, is the two's-complement
    reading of the seven-digit field. *)
Lemma sign_extend_simm7 instr c :
  wf16 instr -> char_at instr 9 = Ok c ->
  (if bool_decide (c = "1"%char)
   then val (from 10 instr) - 64 else val (from 10 instr)) = simm7 instr
  /\ field7 instr
     = (if bool_decide (c = "1"%char) then 64 else 0) + val (from 10 instr)
  /\ 0 <= val (from 10 instr) < 64.
Proof.
  intros Hwf Hc.
  destruct (wf16_char_at instr 9 Hwf ltac:(lia)) as (c' & Hc' & Hl & Hbit).
  rewrite Hc in Hc'. injection Hc' as <-.
  assert (Hsplit : from 9 instr = c :: from 10 instr).
  { unfold from. by rewrite (drop_S _ _ _ Hl). }
  pose proof (val_bound (from 10 instr)) as Hb.
  rewrite wf16_from_length in Hb by done.
  change (2 ^ Z.of_nat (16 - 10)) with 64 in Hb.
  assert (Hf : field7 instr
     = (if bool_decide (c = "1"%char) then 64 else 0) + val (from 10 instr)).
  { unfold field7. rewrite Hsplit, val_cons, wf16_from_length by done.
    change (2 ^ Z.of_nat (16 - 10)) with 64. case_bool_decide; lia. }
  split; [|split; [exact Hf | exact Hb]].
  unfold simm7. rewrite Hf.
  case_bool_decide.
  - destruct (64 <=? 64 + val (from 10 instr)) eqn:E; lia.
  - destruct (64 <=? 0 + val (from 10 instr)) eqn:E; lia.
Qed.

Lemma simm7_range instr : wf16 instr -> -64 <= simm7 instr <= 63.
Proof.
  intros Hwf. pose proof (val_bound (from 9 instr)) as Hb.
  rewrite wf16_from_length in Hb by done.
  change (2 ^ Z.of_nat (16 - 9)) with 128 in Hb.
  unfold simm7, field7. destruct (64 <=? val (from 9 instr)) eqn:E; lia.
Qed.

(** ** The handlers on well-formed words

    With sixteen binary digits and eight registers no parse and no
    register access can raise; what is left of each handler is its
    dispatch on the operation code. *)

Lemma getitem_nat {A} `{Inhabited A} (l : list A) (k : nat) :
  (k < length l)%nat -> getitem l (Z.of_nat k) = Ok (l !!! k).
Proof. intros Hk. rewrite getitem_nonneg by lia. by rewrite Nat2Z.id. Qed.

Lemma setitem_nat {A} (l : list A) (k : nat) v :
  (k < length l)%nat -> setitem l (Z.of_nat k) v = Ok (<[k := v]> l).
Proof. intros Hk. rewrite setitem_nonneg by lia. by rewrite Nat2Z.id. Qed.

Ltac parse_fields Hwf :=
  let H := fresh "Hf" in
  pose proof (int2_reg_field 3 _ Hwf ltac:(lia)) as [H ?];
  change (3 + 3)%nat with 6%nat in *; try rewrite H; clear H;
  pose proof (int2_reg_field 6 _ Hwf ltac:(lia)) as [H ?];
  change (6 + 3)%nat with 9%nat in *; try rewrite H; clear H;
  pose proof (int2_reg_field 9 _ Hwf ltac:(lia)) as [H ?];
  change (9 + 3)%nat with 12%nat in *; try rewrite H; clear H;
  cbn [bind].

Ltac reg_access Hregs :=
  repeat (first
    [ rewrite getitem_nat by (rewrite Hregs; unfold NUM_REGS; lia)
    | rewrite setitem_nat by (rewrite Hregs; unfold NUM_REGS; lia) ];
    cbn [bind]).

Lemma threereg_wf pc regs instr :
  wf16 instr -> length regs = NUM_REGS ->
  let d := reg_field 9 12 instr in
  let a := regs !!! reg_field 3 6 instr in
  let b := regs !!! reg_field 6 9 instr in
  threereg pc regs instr =
    if str_eqb (last_n 4 instr) (lit "0000")
    then Ok (pc + 1, <[d := (a + b) mod 2 ^ 16]> regs)
    else if str_eqb (last_n 4 instr) (lit "0001")
    then Ok (pc + 1, <[d := (a - b) mod 2 ^ 16]> regs)
    else if str_eqb (last_n 4 instr) (lit "0010")
    then Ok (pc + 1, <[d := Z.land a b]> regs)
    else if str_eqb (last_n 4 instr) (lit "0011")
    then Ok (pc + 1, <[d := Z.lor a b]> regs)
    else if str_eqb (last_n 4 instr) (lit "0100")
    then Ok (pc + 1, <[d := if a <? b then 1 else 0]> regs)
    else if str_eqb (last_n 4 instr) (lit "1000")
    then Ok (a, regs)
    else Ok (pc + 1, regs).
Proof.
  intros Hwf Hregs d a b. unfold threereg. parse_fields Hwf.
  repeat (destruct (str_eqb _ _); [by reg_access Hregs|]).
  reflexivity.
Qed.

Lemma tworegImm_wf pc regs instr :
  wf16 instr -> length regs = NUM_REGS ->
  let d := reg_field 6 9 instr in
  let a := regs !!! reg_field 3 6 instr in
  tworegImm pc regs instr =
    if str_eqb (upto 3 instr) (lit "001")
    then Ok (pc + 1, <[d := if a <? simm7 instr mod 2 ^ 16 then 1 else 0]> regs)
    else if str_eqb (upto 3 instr) (lit "111")
    then Ok (pc + 1, <[d := (a + simm7 instr) mod 2 ^ 16]> regs)
    else Ok (pc + 1, regs).
Proof.
  intros Hwf Hregs d a. unfold tworegImm. parse_fields Hwf.
  rewrite int2_from by (done || lia). cbn [bind].
  destruct (wf16_char_at instr 9 Hwf ltac:(lia)) as (c & Hc & _ & _).
  rewrite Hc. cbn [bind].
  destruct (sign_extend_simm7 instr c Hwf Hc) as (-> & _ & _).
  repeat (destruct (str_eqb _ _); [by reg_access Hregs|]).
  reflexivity.
Qed.

Lemma memImm_wf pc regs memory instr :
  wf16 instr -> length regs = NUM_REGS ->
  let r := reg_field 6 9 instr in
  let addr := regs !!! reg_field 3 6 instr + simm7 instr in
  memImm pc regs memory instr =
    if str_eqb (upto 3 instr) (lit "100")
    then let* v := getitem memory addr in Ok (pc + 1, <[r := v]> regs, memory)
    else if str_eqb (upto 3 instr) (lit "101")
    then let* memory := setitem memory addr (regs !!! r) in
         Ok (pc + 1, regs, memory)
    else Ok (pc + 1, regs, memory).
Proof.
  intros Hwf Hregs r addr. unfold memImm. parse_fields Hwf.
  rewrite int2_from by (done || lia). cbn [bind].
  destruct (wf16_char_at instr 9 Hwf ltac:(lia)) as (c & Hc & _ & _).
  rewrite Hc. cbn [bind].
  destruct (sign_extend_simm7 instr c Hwf Hc) as (-> & _ & _).
  destruct (str_eqb _ _).
  { reg_access Hregs.
    destruct (getitem memory _); cbn [bind]; [by reg_access Hregs | done]. }
  destruct (str_eqb _ _); [|reflexivity].
  by reg_access Hregs.
Qed.

Lemma jeq_wf pc regs instr :
  wf16 instr -> length regs = NUM_REGS ->
  jeq pc regs instr =
    if regs !!! reg_field 3 6 instr =? regs !!! reg_field 6 9 instr
    then Ok (pc + 1 + simm7 instr) else Ok (pc + 1).
Proof.
  intros Hwf Hregs. unfold jeq. parse_fields Hwf.
  rewrite int2_from by (done || lia). cbn [bind].
  destruct (wf16_char_at instr 9 Hwf ltac:(lia)) as (c & Hc & _ & _).
  rewrite Hc. cbn [bind].
  destruct (sign_extend_simm7 instr c Hwf Hc) as (-> & _ & _).
  by reg_access Hregs.
Qed.

Lemma j_or_jal_wf pc regs instr :
  wf16 instr -> length regs = NUM_REGS ->
  let imm := val (from 3 instr) in
  let regs' := if str_eqb (upto 3 instr) (lit "011")
               then <[7%nat := pc + 1]> regs else regs in
  j_or_jal pc regs instr = Ok (imm, pc =? imm, regs')
  /\ int2 (from 3 instr) = Ok imm.
Proof.
  intros Hwf Hregs imm regs'. unfold j_or_jal.
  assert (Himm : int2 (from 3 instr) = Ok imm) by (apply int2_from; done || lia).
  split; [|exact Himm]. subst regs'.
  destruct (str_eqb _ _).
  - change 7 with (Z.of_nat 7). reg_access Hregs. rewrite Himm. cbn [bind].
    by destruct (pc =? imm).
  - cbn [bind]. rewrite Himm. cbn [bind]. by destruct (pc =? imm).
Qed.

(** ** The dispatch of [main] *)

Lemma str_eqb_true s t : str_eqb s t = true <-> s = t.
Proof. unfold str_eqb. apply bool_decide_eq_true. Qed.

Lemma str_eqb_false s t : str_eqb s t = false <-> s <> t.
Proof. unfold str_eqb. apply bool_decide_eq_false. Qed.

Lemma str_eqb_refl s : str_eqb s s = true.
Proof. by apply str_eqb_true. Qed.

Lemma upto_2_of_3 (instr s : list ascii) :
  upto 3 instr = s -> upto 2 instr = take 2 s.
Proof. intros <-. unfold upto. by rewrite take_take. Qed.

(** Decides a dispatch test [str_eqb (upto 3 instr) _] that contradicts the
    known two-character prefix [Hpre]. *)
Ltac skip_family Hpre :=
  match goal with
  | |- context [str_eqb (upto 3 ?i) ?s] =>
      let E := fresh "E" in
      destruct (str_eqb (upto 3 i) s) eqn:E;
      [ apply str_eqb_true, upto_2_of_3 in E; rewrite Hpre in E; discriminate
      | cbn [orb] ]
  | |- context [str_eqb (upto 2 ?i) ?s] =>
      let E := fresh "E" in
      destruct (str_eqb (upto 2 i) s) eqn:E;
      [ apply str_eqb_true in E; rewrite Hpre in E; discriminate | ]
  end.

Lemma cycle_jump m instr :
  length (regs m) = NUM_REGS ->
  fetch m = Ok instr -> upto 2 instr = lit "01" ->
  let imm := val (from 3 instr) in
  let regs' := if str_eqb (upto 3 instr) (lit "011")
               then <[7%nat := pc m + 1]> (regs m) else regs m in
  cycle m = Ok (Machine (if pc m =? imm then pc m else imm) regs' (memory m),
                pc m =? imm).
Proof.
  intros Hregs Hfetch Hpre imm regs'.
  pose proof (fetch_jump_wf16 _ _ Hfetch Hpre) as Hwf.
  unfold cycle. rewrite Hfetch. cbn [bind].
  do 5 skip_family Hpre.
  rewrite Hpre, str_eqb_refl.
  destruct (j_or_jal_wf (pc m) (regs m) instr Hwf Hregs) as [-> _].
  cbn [bind]. fold imm. by destruct (pc m =? imm).
Qed.

Lemma main_loop_halted fuel m : main_loop fuel true m = Final m.
Proof. by destruct fuel. Qed.

Lemma main_loop_halts fuel m m' :
  cycle m = Ok (m', true) -> main_loop (S fuel) false m = Final m'.
Proof. intros Hc. cbn [main_loop]. rewrite Hc. apply main_loop_halted. Qed.

(** The first of [S k] cycles, then the remaining [k]. *)
Lemma after_S_front k : forall m,
  after (S k) m
  = (let* (m1, h1) := cycle m in if h1 then Ok (m1, true) else after k m1).
Proof.
  induction k as [|k IH]; intros m.
  - cbn [after bind]. by destruct (cycle m) as [[m1 []]|e].
  - change (after (S (S k)) m)
      with (let* (m', halt) := after (S k) m in
            if halt then Ok (m', true) else cycle m').
    rewrite IH. destruct (cycle m) as [[m1 [|]]|e]; reflexivity.
Qed.

(** The loop and the state after [n] cycles agree: [main_loop] ends where
    [after] says the run is. *)
Lemma main_loop_after n : forall m,
  main_loop n false m
  = match after n m with
    | Ok (m', true) => Final m'
    | Ok (m', false) => StillRunning m'
    | Raise e => Aborted e
    end.
Proof.
  induction n as [|n IH]; intros m; [reflexivity|].
  rewrite after_S_front. cbn [main_loop].
  destruct (cycle m) as [[m1 [|]]|e]; cbn [bind].
  - apply main_loop_halted.
  - apply IH.
  - reflexivity.
Qed.

Lemma main_loop_aborts fuel m e :
  cycle m = Raise e -> main_loop (S fuel) false m = Aborted e.
Proof. intros Hc. cbn [main_loop]. by rewrite Hc. Qed.

(** ** Absolute jumps and the halt convention *)

(** C1. When the fetched word is an absolute jump (leading digits 01) whose
    target [int(instr[3:], 2)] equals the current pc, the cycle sets
    [halt] and leaves pc at that address; the loop then ends with that
    state whatever number of further iterations it would be allowed, and a
    loop entered with [halt] set runs no cycle at all. *)
Theorem self_jump_halts (m : machine) (instr : str) :
  length (regs m) = NUM_REGS ->
  fetch m = Ok instr ->
  upto 2 instr = lit "01" ->
  int2 (from 3 instr) = Ok (pc m) ->
  exists m',
    cycle m = Ok (m', true)
    /\ pc m' = pc m
    /\ (forall fuel, main_loop (S fuel) false m = Final m')
    /\ (forall fuel, main_loop fuel true m' = Final m').
Proof.
  intros Hregs Hfetch Hpre Himm.
  pose proof (fetch_jump_wf16 _ _ Hfetch Hpre) as Hwf.
  destruct (j_or_jal_wf (pc m) (regs m) instr Hwf Hregs) as [_ Hparse].
  assert (Htarget : val (from 3 instr) = pc m) by congruence.
  clear Himm Hparse. rename Htarget into Himm.
  pose proof (cycle_jump m instr Hregs Hfetch Hpre) as Hc. cbn zeta in Hc.
  rewrite Himm, Z.eqb_refl in Hc.
  eexists. split; [exact Hc|]. split; [reflexivity|]. split.
  - intros fuel. by apply main_loop_halts.
  - intros fuel. apply main_loop_halted.
Qed.

Lemma self_jump_halts_witness :
  exists m',
    cycle at_self_j = Ok (m', true)
    /\ pc m' = 3
    /\ (forall fuel, main_loop (S fuel) false at_self_j = Final m')
    /\ (forall fuel, main_loop fuel true m' = Final m').
Proof.
  apply (self_jump_halts at_self_j (lit "0100000000000011")); reflexivity.
Defined.

(** C5. An executed absolute jump leaves memory alone.  Jump-and-link
    (011) writes the current pc plus one, not the target, into register
    7 and changes no other register; a plain jump (010) changes no
    register at all. *)
Theorem jump_frame (m : machine) (instr : str) :
  length (regs m) = NUM_REGS ->
  fetch m = Ok instr ->
  upto 2 instr = lit "01" ->
  exists m' halt,
    cycle m = Ok (m', halt)
    /\ memory m' = memory m
    /\ (upto 3 instr = lit "011" ->
        regs m' = <[7%nat := pc m + 1]> (regs m)
        /\ regs m' !! 7%nat = Some (pc m + 1)
        /\ forall i, i <> 7%nat -> regs m' !! i = regs m !! i)
    /\ (upto 3 instr = lit "010" -> regs m' = regs m).
Proof.
  intros Hregs Hfetch Hpre.
  pose proof (cycle_jump m instr Hregs Hfetch Hpre) as Hc. cbn zeta in Hc.
  do 2 eexists. split; [exact Hc|]. cbn [memory regs].
  split; [reflexivity|]. split.
  - intros ->. rewrite str_eqb_refl. split; [reflexivity|]. split.
    + apply list_lookup_insert_eq. rewrite Hregs. unfold NUM_REGS. lia.
    + intros i Hi. by apply list_lookup_insert_ne.
  - intros ->. reflexivity.
Qed.

Lemma jump_frame_witness :
  exists m' halt,
    cycle at_jal_1 = Ok (m', halt)
    /\ memory m' = [24577; 0; 0]
    /\ (upto 3 (lit "0110000000000001") = lit "011" ->
        regs m' = <[7%nat := 0 + 1]> [11; 12; 13; 14; 15; 16; 17; 18]
        /\ regs m' !! 7%nat = Some (0 + 1)
        /\ forall i, i <> 7%nat ->
           regs m' !! i = [11; 12; 13; 14; 15; 16; 17; 18] !! i)
    /\ (upto 3 (lit "0110000000000001") = lit "010" ->
        regs m' = [11; 12; 13; 14; 15; 16; 17; 18]).
Proof.
  apply (jump_frame at_jal_1 (lit "0110000000000001")); reflexivity.
Defined.

(** C10. A jump-and-link that targets its own address [p] still writes
    [p + 1] into register 7 before the halt is signalled: the state the
    loop ends with has register 7 equal to [p + 1] and pc equal to [p]. *)
Theorem jal_self_jump_links (m : machine) (instr : str) :
  length (regs m) = NUM_REGS ->
  fetch m = Ok instr ->
  upto 3 instr = lit "011" ->
  int2 (from 3 instr) = Ok (pc m) ->
  forall fuel,
  exists m',
    main_loop (S fuel) false m = Final m'
    /\ regs m' !! 7%nat = Some (pc m + 1)
    /\ pc m' = pc m.
Proof.
  intros Hregs Hfetch Hpre3 Himm fuel.
  assert (Hpre : upto 2 instr = lit "01") by (by apply upto_2_of_3 in Hpre3).
  pose proof (fetch_jump_wf16 _ _ Hfetch Hpre) as Hwf.
  destruct (j_or_jal_wf (pc m) (regs m) instr Hwf Hregs) as [_ Hparse].
  assert (Htarget : val (from 3 instr) = pc m) by congruence.
  clear Himm Hparse. rename Htarget into Himm.
  pose proof (cycle_jump m instr Hregs Hfetch Hpre) as Hc. cbn zeta in Hc.
  rewrite Himm, Z.eqb_refl, Hpre3, str_eqb_refl in Hc.
  eexists. split; [by apply main_loop_halts|]. cbn [regs pc].
  split; [|reflexivity].
  rewrite <- Himm. apply list_lookup_insert_eq. rewrite Hregs. unfold NUM_REGS. lia.
Qed.

Lemma jal_self_jump_links_witness :
  exists m',
    main_loop 1 false at_self_jal = Final m'
    /\ regs m' !! 7%nat = Some (3 + 1)
    /\ pc m' = 3.
Proof.
  apply (jal_self_jump_links at_self_jal (lit "0110000000000011")); reflexivity.
Defined.

(** ** Set-less-than *)

(** Evaluates the comparisons of two literal operation codes. *)
Ltac decide_codes :=
  repeat match goal with
  | |- context [str_eqb (lit ?a) (lit ?b)] =>
      let v := eval vm_compute in (str_eqb (lit a) (lit b)) in
      change (str_eqb (lit a) (lit b)) with v
  end;
  cbv iota.

(** C6. Set-less-than writes 1 or 0 into its destination register
    according to the order of the two register values as plain
    (non-negative, unsigned) integers; the immediate form compares the
    register with the signed immediate reduced modulo 2^16. *)
Theorem set_less_than (pc : Z) (regs : list Z) (slt slti : str) :
  wf16 slt -> wf16 slti -> length regs = NUM_REGS ->
  last_n 4 slt = lit "0100" ->
  upto 3 slti = lit "001" ->
  let a := regs !!! reg_field 3 6 slt in
  let b := regs !!! reg_field 6 9 slt in
  let s := regs !!! reg_field 3 6 slti in
  let imm := simm7 slti mod 2 ^ 16 in
  threereg pc regs slt
    = Ok (pc + 1, <[reg_field 9 12 slt := if a <? b then 1 else 0]> regs)
  /\ tworegImm pc regs slti
    = Ok (pc + 1, <[reg_field 6 9 slti := if s <? imm then 1 else 0]> regs)
  /\ 0 <= imm < 2 ^ 16.
Proof.
  intros Hslt Hslti Hregs Hcode Hop a b s imm. split; [|split].
  - rewrite threereg_wf by done. rewrite Hcode. by decide_codes.
  - rewrite tworegImm_wf by done. rewrite Hop. by decide_codes.
  - apply Z.mod_pos_bound. lia.
Qed.

Lemma set_less_than_witness :
  let regs := [0; 65535; 1; 0; 0; 0; 0; 0] in
  threereg 0 regs (lit "0000010100110100") = Ok (1, [0; 65535; 1; 0; 0; 0; 0; 0])
  /\ tworegImm 0 regs (lit "0010100111111111") = Ok (1, [0; 65535; 1; 1; 0; 0; 0; 0])
  /\ 0 <= 65535 < 2 ^ 16.
Proof.
  exact (set_less_than 0 [0; 65535; 1; 0; 0; 0; 0; 0]
           (lit "0000010100110100") (lit "0010100111111111")
           ltac:(compute_done) ltac:(compute_done)
           eq_refl eq_refl eq_refl).
Defined.

(** ** Loads and stores *)

(** C7. A store of [v] to address [A] followed by a load that computes the
    same address [A], inside memory, leaves [v] in the load's destination
    register. *)
Theorem store_then_load (pc pc' : Z) (regs memory : list Z) (sw lw : str) :
  wf16 sw -> wf16 lw -> length regs = NUM_REGS ->
  upto 3 sw = lit "101" ->
  upto 3 lw = lit "100" ->
  let A := regs !!! reg_field 3 6 sw + simm7 sw in
  regs !!! reg_field 3 6 lw + simm7 lw = A ->
  0 <= A < Z.of_nat (length memory) ->
  let v := regs !!! reg_field 6 9 sw in
  exists memory' regs',
    memImm pc regs memory sw = Ok (pc + 1, regs, memory')
    /\ memImm pc' regs memory' lw = Ok (pc' + 1, regs', memory')
    /\ regs' !! reg_field 6 9 lw = Some v.
Proof.
  intros Hsw Hlw Hregs Hop_sw Hop_lw A Hsame HA v.
  exists (<[Z.to_nat A := v]> memory),
         (<[reg_field 6 9 lw := v]> regs).
  split; [|split].
  - rewrite memImm_wf by done. rewrite Hop_sw. decide_codes.
    fold A v. by rewrite setitem_nonneg.
  - rewrite memImm_wf by done. rewrite Hop_lw. decide_codes.
    rewrite Hsame. rewrite getitem_nonneg by (rewrite length_insert; lia).
    cbn [bind]. rewrite list_lookup_total_insert_eq by lia. reflexivity.
  - apply list_lookup_insert_eq. rewrite Hregs.
    pose proof (int2_reg_field 6 lw Hlw ltac:(lia)) as [_ Hlt].
    unfold NUM_REGS. exact Hlt.
Qed.

Lemma store_then_load_witness :
  exists memory' regs',
    memImm 0 [0; 7; 2; 0; 0; 0; 0; 0] [0; 0; 0; 0]
      (lit "1010100010000001") = Ok (1, [0; 7; 2; 0; 0; 0; 0; 0], memory')
    /\ memImm 1 [0; 7; 2; 0; 0; 0; 0; 0] memory'
      (lit "1000100110000001") = Ok (2, regs', memory')
    /\ regs' !! 3%nat = Some 7.
Proof.
  exact (store_then_load 0 1 [0; 7; 2; 0; 0; 0; 0; 0] [0; 0; 0; 0]
           (lit "1010100010000001") (lit "1000100110000001")
           ltac:(compute_done) ltac:(compute_done)
           eq_refl eq_refl eq_refl eq_refl ltac:(compute_done)).
Defined.

(** C9. A load or store whose effective address [A] is negative but not
    below [- MEM_SIZE] does not raise: it reads or writes the cell at
    index [MEM_SIZE + A], counting from the end of memory, and the next pc
    is the current one plus one. *)
Theorem negative_address_wraps (pc : Z) (regs memory : list Z) (instr : str) :
  wf16 instr -> length regs = NUM_REGS ->
  Z.of_nat (length memory) = MEM_SIZE ->
  let A := regs !!! reg_field 3 6 instr + simm7 instr in
  - MEM_SIZE <= A < 0 ->
  (upto 3 instr = lit "100" ->
   memImm pc regs memory instr
   = Ok (pc + 1,
         <[reg_field 6 9 instr := memory !!! Z.to_nat (MEM_SIZE + A)]> regs,
         memory))
  /\ (upto 3 instr = lit "101" ->
      memImm pc regs memory instr
      = Ok (pc + 1, regs,
            <[Z.to_nat (MEM_SIZE + A) := regs !!! reg_field 6 9 instr]> memory)).
Proof.
  intros Hwf Hregs Hmem A HA. split; intros Hop.
  - rewrite memImm_wf by done. rewrite Hop. decide_codes. fold A.
    rewrite getitem_neg by lia. cbn [bind].
    rewrite Hmem. by rewrite (Z.add_comm A).
  - rewrite memImm_wf by done. rewrite Hop. decide_codes. fold A.
    rewrite setitem_neg by lia. cbn [bind].
    rewrite Hmem. by rewrite (Z.add_comm A).
Qed.

Lemma negative_address_wraps_witness :
  memImm 9 (replicate NUM_REGS 0) (replicate (Z.to_nat MEM_SIZE) 5) lw_minus_1
  = Ok (9 + 1,
        <[reg_field 6 9 lw_minus_1
          := replicate (Z.to_nat MEM_SIZE) 5
             !!! Z.to_nat (MEM_SIZE
                           + (replicate NUM_REGS 0 !!! reg_field 3 6 lw_minus_1
                              + simm7 lw_minus_1))]>
          (replicate NUM_REGS 0),
        replicate (Z.to_nat MEM_SIZE) 5).
Proof.
  apply (negative_address_wraps 9 (replicate NUM_REGS 0)
           (replicate (Z.to_nat MEM_SIZE) 5) lw_minus_1).
  - compute_done.
  - reflexivity.
  - rewrite length_replicate. unfold MEM_SIZE. lia.
  - compute_done.
  - reflexivity.
Defined.

(** ** Unknown function codes *)

(** C8. A fetched 16-bit word with leading digits 000 whose last four
    digits are none of the six function codes changes no register and no
    memory cell; the cycle completes and the next pc is the current one
    plus one. *)
Theorem unknown_function_is_nop (m : machine) (w : Z) :
  getitem (memory m) (pc m) = Ok w ->
  0 <= w < 2 ^ 16 ->
  upto 3 (instr_of w) = lit "000" ->
  last_n 4 (instr_of w) ∉ function_codes ->
  threereg (pc m) (regs m) (instr_of w) = Ok (pc m + 1, regs m)
  /\ cycle m = Ok (Machine (pc m + 1) (regs m) (memory m), false).
Proof.
  intros Hget Hw Hpre Hcode.
  destruct (instr_of_wf16 w Hw) as [Hwf _].
  assert (Hnop : threereg (pc m) (regs m) (instr_of w) = Ok (pc m + 1, regs m)).
  { unfold threereg. parse_fields Hwf.
    repeat match goal with
    | |- context [str_eqb (last_n 4 ?i) ?c] =>
        let E := fresh "E" in
        destruct (str_eqb (last_n 4 i) c) eqn:E;
        [ exfalso; apply Hcode; apply str_eqb_true in E; rewrite E;
          unfold function_codes; rewrite !elem_of_cons; tauto | ]
    end.
    reflexivity. }
  split; [exact Hnop|].
  unfold cycle, fetch. rewrite Hget. cbn [bind].
  rewrite Hpre, str_eqb_refl, Hnop. reflexivity.
Qed.

Lemma unknown_function_is_nop_witness :
  let m := Machine 1 [1; 2; 3; 4; 5; 6; 7; 8] [0; 5; 0] in
  threereg 1 [1; 2; 3; 4; 5; 6; 7; 8] (instr_of 5)
  = Ok (1 + 1, [1; 2; 3; 4; 5; 6; 7; 8])
  /\ cycle m = Ok (Machine (1 + 1) [1; 2; 3; 4; 5; 6; 7; 8] [0; 5; 0], false).
Proof.
  exact (unknown_function_is_nop (Machine 1 [1; 2; 3; 4; 5; 6; 7; 8] [0; 5; 0]) 5
           eq_refl ltac:(compute_done) eq_refl ltac:(compute_done)).
Defined.

(** ** Word ranges *)

Lemma bind_Ok {A B} (r : result A) (k : A -> result B) b :
  bind r k = Ok b -> exists a, r = Ok a /\ k a = Ok b.
Proof. destruct r as [a|e]; [eauto | discriminate]. Qed.

Lemma word_ok_mod v : word_ok (v mod 2 ^ 16).
Proof. unfold word_ok, REG_SIZE. apply Z.mod_pos_bound. lia. Qed.

Lemma word_ok_flag (c : bool) : word_ok (if c then 1 else 0).
Proof. unfold word_ok, REG_SIZE. destruct c; lia. Qed.

Lemma word_ok_log2 v : 0 <= v -> Z.log2 v < 16 -> word_ok v.
Proof.
  intros Hv Hlog. split; [done|]. unfold REG_SIZE.
  destruct (Z.eq_dec v 0) as [-> | Hne]; [lia|].
  apply Z.log2_lt_pow2; lia.
Qed.

Lemma log2_word_ok v : word_ok v -> 0 <= v /\ Z.log2 v < 16.
Proof.
  intros [Hv Hlt]. split; [done|]. unfold REG_SIZE in Hlt.
  destruct (Z.eq_dec v 0) as [-> | Hne]; [simpl; lia|].
  apply Z.log2_lt_pow2; lia.
Qed.

Lemma word_ok_land a b : word_ok a -> word_ok b -> word_ok (Z.land a b).
Proof.
  intros [Ha Hla]%log2_word_ok [Hb Hlb]%log2_word_ok. apply word_ok_log2.
  - apply Z.land_nonneg. by left.
  - pose proof (Z.log2_land a b Ha Hb). lia.
Qed.

Lemma word_ok_lor a b : word_ok a -> word_ok b -> word_ok (Z.lor a b).
Proof.
  intros [Ha Hla]%log2_word_ok [Hb Hlb]%log2_word_ok. apply word_ok_log2.
  - by apply Z.lor_nonneg.
  - rewrite Z.log2_lor by done. lia.
Qed.

Lemma regs_lookup_ok (regs : list Z) (i : nat) :
  Forall word_ok regs -> word_ok (regs !!! i).
Proof.
  intros Hall. destruct (decide (i < length regs)%nat) as [Hi|Hi].
  - by apply Forall_lookup_total_1.
  - rewrite list_lookup_total_alt, lookup_ge_None_2 by lia.
    unfold word_ok, REG_SIZE. simpl. lia.
Qed.

Lemma getitem_Forall (P : Z -> Prop) (l : list Z) i x :
  Forall P l -> getitem l i = Ok x -> P x.
Proof.
  intros Hall (k & _ & Hk)%getitem_Ok. by eapply Forall_lookup_1.
Qed.

Lemma setitem_Forall (P : Z -> Prop) (l l' : list Z) i x :
  Forall P l -> P x -> setitem l i x = Ok l' -> Forall P l'.
Proof.
  intros Hall Hx (k & _ & ->)%setitem_Ok. by apply Forall_insert.
Qed.

(** What the loader accepts from a group of at most sixteen digits fits a
    word. *)
Lemma int2_sixteen (s : str) v :
  (length s <= 16)%nat -> int2 s = Ok v -> word_ok v.
Proof.
  intros Hlen Hv%int2_Ok_bound. split; [lia|]. unfold REG_SIZE.
  assert (2 ^ Z.of_nat (length s) <= 2 ^ 16) by (apply Z.pow_le_mono_r; lia).
  lia.
Qed.

Lemma load_from_ok machine_code : forall expectedaddr mem mem',
  Forall sixteen_digits machine_code ->
  Forall word_ok mem ->
  load_from expectedaddr machine_code mem = Ok mem' ->
  Forall word_ok mem' /\ length mem' = length mem.
Proof.
  induction machine_code as [|[|addr instr] rest IH];
    intros expectedaddr mem mem' Hlines Hmem; cbn [load_from].
  - by intros [= <-].
  - discriminate.
  - apply Forall_cons in Hlines as [Hline Hlines]. simpl in Hline.
    intros (v & Hv & Hrest)%bind_Ok.
    destruct (negb (Z.of_N addr =? expectedaddr)); [discriminate|].
    apply bind_Ok in Hrest as (mem1 & Hset & Hrest).
    apply IH in Hrest as [Hok Hlen]; [|done|].
    + split; [done|]. rewrite Hlen. by eapply setitem_length.
    + eapply setitem_Forall; [exact Hmem| |exact Hset].
      by eapply int2_sixteen.
Qed.

Lemma initial_state_ok machine_code mem :
  Forall sixteen_digits machine_code ->
  load_machine_code machine_code (replicate (Z.to_nat MEM_SIZE) 0) = Ok mem ->
  state_ok (initial mem).
Proof.
  intros Hlines Hload. unfold load_machine_code in Hload.
  apply load_from_ok in Hload as [Hok Hlen]; [|done|].
  - unfold state_ok, initial. cbn [regs memory].
    split; [|split; [done|split]].
    + apply Forall_replicate. unfold word_ok, REG_SIZE. lia.
    + apply length_replicate.
    + rewrite Hlen, length_replicate. unfold MEM_SIZE. lia.
  - apply Forall_replicate. unfold word_ok, REG_SIZE. lia.
Qed.

Lemma state_ok_intro pc' regs' memory' :
  Forall word_ok regs' -> Forall word_ok memory' ->
  length regs' = NUM_REGS -> Z.of_nat (length memory') = MEM_SIZE ->
  state_ok (Machine pc' regs' memory').
Proof. by intros; repeat split. Qed.

Lemma state_ok_insert m pc' d v :
  state_ok m -> word_ok v ->
  state_ok (Machine pc' (<[d := v]> (regs m)) (memory m)).
Proof.
  intros (Hregs & Hmem & Hlen & Hmlen) Hv. apply state_ok_intro; try done.
  - by apply Forall_insert.
  - by rewrite length_insert.
Qed.

Lemma state_ok_pc m pc' : state_ok m -> state_ok (Machine pc' (regs m) (memory m)).
Proof. intros (Hregs & Hmem & Hlen & Hmlen). by apply state_ok_intro. Qed.

(** A completed cycle that fetched at a non-negative pc keeps every
    register and memory word inside [0, 2^16). *)
Lemma cycle_state_ok m m' halt :
  state_ok m -> 0 <= pc m -> cycle m = Ok (m', halt) -> state_ok m'.
Proof.
  intros Hok Hpc. pose proof Hok as (Hregs & Hmem & Hlen & Hmlen).
  unfold cycle. intros (instr & Hfetch & Hrest)%bind_Ok.
  apply fetch_Ok in Hfetch as (w & Hw & ->).
  assert (Hwok : word_ok w) by (by eapply getitem_Forall).
  destruct (instr_of_wf16 w Hwok) as [Hwf _].
  assert (Hpc_lt : pc m < MEM_SIZE).
  { destruct (Z_lt_le_dec (pc m) MEM_SIZE) as [|Hge]; [done|].
    rewrite getitem_out in Hw by lia. discriminate. }
  revert Hrest.
  destruct (str_eqb (upto 3 (instr_of w)) (lit "000")).
  { rewrite threereg_wf by done. cbn zeta.
    repeat (destruct (str_eqb (last_n 4 _) _);
      [cbn [bind]; intros [= <- <-];
       auto using state_ok_insert, state_ok_pc, word_ok_mod, word_ok_flag,
         word_ok_land, word_ok_lor, regs_lookup_ok|]).
    cbn [bind]. intros [= <- <-]. by apply state_ok_pc. }
  destruct (str_eqb (upto 3 (instr_of w)) (lit "001")
            || str_eqb (upto 3 (instr_of w)) (lit "111")).
  { rewrite tworegImm_wf by done. cbn zeta.
    repeat (destruct (str_eqb (upto 3 _) _);
      [cbn [bind]; intros [= <- <-];
       auto using state_ok_insert, word_ok_mod, word_ok_flag|]).
    cbn [bind]. intros [= <- <-]. by apply state_ok_pc. }
  destruct (str_eqb (upto 2 (instr_of w)) (lit "10")).
  { rewrite memImm_wf by done. cbn zeta.
    destruct (str_eqb (upto 3 _) _).
    { intros (x & (v & Hv & [= <-])%bind_Ok & [= <- <-])%bind_Ok.
      apply state_ok_insert; [done|]. by eapply getitem_Forall. }
    destruct (str_eqb (upto 3 _) _).
    { intros (x & (mem1 & Hset & [= <-])%bind_Ok & [= <- <-])%bind_Ok.
      apply state_ok_intro; try done.
      - eapply setitem_Forall; [exact Hmem| |exact Hset].
        by apply regs_lookup_ok.
      - by rewrite (setitem_length _ _ _ _ Hset). }
    cbn [bind]. intros [= <- <-]. by apply state_ok_pc. }
  destruct (str_eqb (upto 3 (instr_of w)) (lit "110")).
  { rewrite jeq_wf by done.
    destruct (_ =? _); cbn [bind]; intros [= <- <-]; by apply state_ok_pc. }
  destruct (str_eqb (upto 2 (instr_of w)) (lit "01")).
  { destruct (j_or_jal_wf (pc m) (regs m) (instr_of w) Hwf Hlen) as [-> _].
    cbn [bind].
    assert (Hlink : word_ok (pc m + 1)).
    { unfold word_ok, REG_SIZE. unfold MEM_SIZE in Hpc_lt. lia. }
    destruct (str_eqb (upto 3 _) _); destruct (pc m =? _);
      intros [= <- <-]; auto using state_ok_insert, state_ok_pc. }
  intros [= <- <-]. done.
Qed.

(** ** Memory size *)

Lemma memImm_memory_length pc regs memory instr pc' regs' memory' :
  memImm pc regs memory instr = Ok (pc', regs', memory') ->
  length memory' = length memory.
Proof.
  unfold memImm.
  intros (addrIndex & _ & (imm & _ & (sign & _ & H)%bind_Ok)%bind_Ok)%bind_Ok.
  revert H. destruct (str_eqb _ _).
  { intros (d & _ & (base & _ & (v & _ & (r & _ & [= _ _ <-])%bind_Ok)
      %bind_Ok)%bind_Ok)%bind_Ok. reflexivity. }
  destruct (str_eqb _ _).
  { intros (src & _ & (v & _ & (base & _ & (mem1 & Hset & [= _ _ <-])%bind_Ok)
      %bind_Ok)%bind_Ok)%bind_Ok. by eapply setitem_length. }
  by intros [= _ _ <-].
Qed.

Lemma cycle_memory_length m m' halt :
  cycle m = Ok (m', halt) -> length (memory m') = length (memory m).
Proof.
  unfold cycle. intros (instr & _ & H)%bind_Ok. revert H.
  destruct (str_eqb _ _).
  { intros ([pc' regs'] & _ & [= <- _])%bind_Ok. reflexivity. }
  destruct (_ || _).
  { intros ([pc' regs'] & _ & [= <- _])%bind_Ok. reflexivity. }
  destruct (str_eqb _ _).
  { intros ([[pc' regs'] memory'] & Hmem & [= <- _])%bind_Ok.
    by eapply memImm_memory_length. }
  destruct (str_eqb _ _).
  { intros (pc' & _ & [= <- _])%bind_Ok. reflexivity. }
  destruct (str_eqb _ _).
  { intros ([[imm halted] regs'] & _ & H)%bind_Ok. revert H.
    destruct halted; intros [= <- _]; reflexivity. }
  by intros [= <- _].
Qed.

Lemma after_memory_length n : forall m0 m halt,
  after n m0 = Ok (m, halt) -> length (memory m) = length (memory m0).
Proof.
  induction n as [|n IH]; intros m0 m halt; cbn [after].
  - by intros [= <- _].
  - intros ([m1 h1] & Hn & H)%bind_Ok. apply IH in Hn. revert H.
    destruct h1.
    + intros [= <- _]. exact Hn.
    + intros Hc%cycle_memory_length. congruence.
Qed.

Lemma load_from_length machine_code : forall expectedaddr mem mem',
  load_from expectedaddr machine_code mem = Ok mem' -> length mem' = length mem.
Proof.
  induction machine_code as [|[|addr instr] rest IH];
    intros expectedaddr mem mem'; cbn [load_from].
  - by intros [= <-].
  - discriminate.
  - intros (v & _ & Hrest)%bind_Ok. revert Hrest.
    destruct (negb _); [discriminate|].
    intros (mem1 & Hset & Hrest)%bind_Ok.
    apply IH in Hrest. rewrite Hrest. by eapply setitem_length.
Qed.

Lemma reachable_memory_size machine_code mem n m halt :
  load_machine_code machine_code (replicate (Z.to_nat MEM_SIZE) 0) = Ok mem ->
  after n (initial mem) = Ok (m, halt) ->
  Z.of_nat (length (memory m)) = MEM_SIZE.
Proof.
  intros Hload%load_from_length Hafter%after_memory_length.
  rewrite Hafter. unfold initial. cbn [memory].
  rewrite Hload, length_replicate. unfold MEM_SIZE. lia.
Qed.

(** ** The program counter *)

(** C3, as stated, fails: after one cycle of [prog_back] the pc is -1, and
    the next cycle does not abort; it fetches the last memory cell and
    completes. *)
Lemma backward_branch_counterexample :
  load_machine_code prog_back (replicate (Z.to_nat MEM_SIZE) 0) = Ok image_back
  /\ after 1 (initial image_back)
     = Ok (Machine (-1) (replicate NUM_REGS 0) image_back, false)
  /\ ~ (0 <= -1 < MEM_SIZE)
  /\ cycle (Machine (-1) (replicate NUM_REGS 0) image_back)
     = Ok (Machine 0 (replicate NUM_REGS 0) image_back, false).
Proof.
  split; [|split; [|split]].
  - compute_done.
  - compute_done.
  - lia.
  - compute_done.
Qed.

(** C3, amended. In every state the loop reaches, a pc in [0, MEM_SIZE)
    fetches [memory[pc]]; a negative pc not below [- MEM_SIZE] is not
    fatal, it fetches [memory[MEM_SIZE + pc]]; any other pc aborts the
    run with an index error. *)
Theorem fetch_wraps_or_aborts (machine_code : list line) (mem : list Z)
    (n : nat) (m : machine) :
  load_machine_code machine_code (replicate (Z.to_nat MEM_SIZE) 0) = Ok mem ->
  after n (initial mem) = Ok (m, false) ->
  (0 <= pc m < MEM_SIZE ->
   fetch m = Ok (instr_of (memory m !!! Z.to_nat (pc m))))
  /\ (- MEM_SIZE <= pc m < 0 ->
      fetch m = Ok (instr_of (memory m !!! Z.to_nat (MEM_SIZE + pc m))))
  /\ (pc m < - MEM_SIZE \/ MEM_SIZE <= pc m ->
      forall fuel, main_loop (S fuel) false m = Aborted IndexError).
Proof.
  intros Hload Hafter.
  pose proof (reachable_memory_size _ _ _ _ _ Hload Hafter) as Hsize.
  split; [|split]; intros Hpc.
  - unfold fetch. rewrite getitem_nonneg by lia. reflexivity.
  - unfold fetch. rewrite getitem_neg by lia. cbn [bind].
    by rewrite Hsize, (Z.add_comm (pc m)).
  - intros fuel. apply main_loop_aborts. unfold cycle, fetch.
    rewrite getitem_out by lia. reflexivity.
Qed.

Lemma fetch_wraps_or_aborts_witness :
  let m := Machine (-1) (replicate NUM_REGS 0) image_back in
  (0 <= pc m < MEM_SIZE ->
   fetch m = Ok (instr_of (memory m !!! Z.to_nat (pc m))))
  /\ (- MEM_SIZE <= pc m < 0 ->
      fetch m = Ok (instr_of (memory m !!! Z.to_nat (MEM_SIZE + pc m))))
  /\ (pc m < - MEM_SIZE \/ MEM_SIZE <= pc m ->
      forall fuel, main_loop (S fuel) false m = Aborted IndexError).
Proof.
  apply (fetch_wraps_or_aborts prog_back image_back 1).
  - compute_done.
  - compute_done.
Defined.

(** ** Register and memory words *)

(** C4, as stated, fails: [prog_link] stores the word of [jal 0] in the
    last but one memory cell and branches to pc = -2, where jump-and-link
    writes pc + 1 = -1, unreduced, into register 7. *)
Lemma negative_link_counterexample :
  Forall sixteen_digits prog_link
  /\ load_machine_code prog_link (replicate (Z.to_nat MEM_SIZE) 0) = Ok image_link
  /\ after 13 (initial image_link)
     = Ok (Machine 0 [0; 24576; 0; 0; 0; 0; 0; -1]
             (<[Z.to_nat 32766 := 24576]> image_link), false)
  /\ ~ Forall word_ok [0; 24576; 0; 0; 0; 0; 0; -1].
Proof.
  split; [|split; [|split]].
  - compute_done.
  - compute_done.
  - compute_done.
  - intros Hall. apply (Forall_lookup_1 _ _ 7%nat (-1)) in Hall; [|reflexivity].
    unfold word_ok in Hall. lia.
Qed.

(** C4, amended. When every loaded word has at most sixteen digits and
    every fetch so far happened at a non-negative pc, all registers and
    all memory words lie in [0, 2^16) after loading and after each
    completed cycle, and there are eight registers and [MEM_SIZE] memory
    cells. *)
Theorem words_stay_in_range (machine_code : list line) (mem : list Z)
    (n : nat) (m : machine) (halt : bool) :
  Forall sixteen_digits machine_code ->
  load_machine_code machine_code (replicate (Z.to_nat MEM_SIZE) 0) = Ok mem ->
  (forall k mk, (k < n)%nat -> after k (initial mem) = Ok (mk, false) ->
                0 <= pc mk) ->
  after n (initial mem) = Ok (m, halt) ->
  state_ok m.
Proof.
  intros Hlines Hload. revert m halt.
  induction n as [|n IH]; intros m halt Hpcs; cbn [after].
  - intros [= <- _]. by eapply initial_state_ok.
  - intros ([m1 h1] & Hn & H)%bind_Ok.
    assert (Hok1 : state_ok m1).
    { eapply IH; [|exact Hn]. intros k mk Hk. apply Hpcs. lia. }
    revert H. destruct h1.
    + by intros [= <- _].
    + intros Hc. eapply cycle_state_ok; [exact Hok1| |exact Hc].
      eapply (Hpcs n); [lia | exact Hn].
Qed.

Lemma words_stay_in_range_witness :
  state_ok (Machine 1 [0; 5; 0; 0; 0; 0; 0; 0] image_add).
Proof.
  apply (words_stay_in_range prog_add image_add 1 _ false).
  - compute_done.
  - compute_done.
  - intros k mk Hk. destruct k as [|k]; [|lia].
    cbn [after]. intros [= <-]. cbn [pc initial]. lia.
  - compute_done.
Defined.

(** ** Sign extension of the immediate *)

(** C2, as stated, fails: in [addi $1, $0, -1] the seven-digit field is
    127 with its sign digit set, and the handler adds -1 (register 1
    becomes 65535), not 127 - 64 = 63.  Nor is the signed value always
    used modulo 2^16: [jeq $0, $0, -2] at pc 0 yields pc -1, not 65535. *)
Lemma sign_bit_counterexample :
  wf16 addi_minus_1
  /\ char_at addi_minus_1 9 = Ok "1"%char
  /\ field7 addi_minus_1 = 127
  /\ claimed_imm addi_minus_1 = 63
  /\ tworegImm 0 (replicate NUM_REGS 0) addi_minus_1
     = Ok (1, [0; 65535; 0; 0; 0; 0; 0; 0])
  /\ tworegImm 0 (replicate NUM_REGS 0) addi_minus_1
     <> Ok (1, <[1%nat := (0 + claimed_imm addi_minus_1) mod 2 ^ 16]>
                 (replicate NUM_REGS 0))
  /\ jeq 0 (replicate NUM_REGS 0) jeq_minus_2 = Ok (-1)
  /\ jeq 0 (replicate NUM_REGS 0) jeq_minus_2 <> Ok ((0 + 1 + -2) mod 2 ^ 16).
Proof. repeat split; compute_done. Qed.

(** C2, amended. With the sign digit set the handlers use the field value
    less 128, which is the value of the six low digits less 64; with the
    sign digit clear they use the field value unchanged.  The result lies
    in [-64, 63].  The two-register-immediate handler uses it modulo 2^16
    (added to the source register, or reduced before the comparison); the
    memory handler adds it to the base register and the branch handler to
    pc + 1 without reduction. *)
Theorem sign_extension (pc : Z) (regs memory : list Z) (instr : str) (c : ascii) :
  wf16 instr -> length regs = NUM_REGS ->
  char_at instr 9 = Ok c ->
  let imm := if bool_decide (c = "1"%char)
             then field7 instr - 128 else field7 instr in
  let a := regs !!! reg_field 3 6 instr in
  let b := regs !!! reg_field 6 9 instr in
  let r := reg_field 6 9 instr in
  (c = "1"%char -> imm = val (from 10 instr) - 64)
  /\ -64 <= imm <= 63
  /\ (upto 3 instr = lit "111" ->
      tworegImm pc regs instr = Ok (pc + 1, <[r := (a + imm) mod 2 ^ 16]> regs))
  /\ (upto 3 instr = lit "001" ->
      tworegImm pc regs instr
      = Ok (pc + 1, <[r := if a <? imm mod 2 ^ 16 then 1 else 0]> regs))
  /\ (upto 3 instr = lit "100" ->
      memImm pc regs memory instr
      = (let* v := getitem memory (a + imm) in
         Ok (pc + 1, <[r := v]> regs, memory)))
  /\ (upto 3 instr = lit "101" ->
      memImm pc regs memory instr
      = (let* memory' := setitem memory (a + imm) b in
         Ok (pc + 1, regs, memory')))
  /\ jeq pc regs instr = (if a =? b then Ok (pc + 1 + imm) else Ok (pc + 1)).
Proof.
  intros Hwf Hregs Hc imm a b r.
  destruct (sign_extend_simm7 instr c Hwf Hc) as (Hs & Hf & Hlow).
  assert (Himm : imm = simm7 instr).
  { rewrite <- Hs. subst imm. rewrite Hf. case_bool_decide; lia. }
  split; [|split; [|split; [|split; [|split; [|split]]]]].
  - intros ->. subst imm. rewrite Hf. simpl. lia.
  - rewrite Himm. by apply simm7_range.
  - intros Hop. rewrite tworegImm_wf by done. rewrite Hop, Himm. by decide_codes.
  - intros Hop. rewrite tworegImm_wf by done. rewrite Hop, Himm. by decide_codes.
  - intros Hop. rewrite memImm_wf by done. rewrite Hop, Himm. by decide_codes.
  - intros Hop. rewrite memImm_wf by done. rewrite Hop, Himm. by decide_codes.
  - rewrite jeq_wf by done. by rewrite Himm.
Qed.

Lemma sign_extension_witness :
  tworegImm 0 (replicate NUM_REGS 0) addi_minus_1
  = Ok (0 + 1, <[1%nat := (0 + (127 - 128)) mod 2 ^ 16]> (replicate NUM_REGS 0)).
Proof.
  apply (sign_extension 0 (replicate NUM_REGS 0) [] addi_minus_1 "1"%char).
  - compute_done.
  - reflexivity.
  - reflexivity.
  - reflexivity.
Defined.

(** ** The register file keeps its eight cells *)

Ltac invert_run H :=
  repeat first
    [ apply bind_Ok in H as (? & ? & H)
    | match type of H with
      | (if ?c then _ else _) = Ok _ => destruct c
      | Raise _ = Ok _ => discriminate H
      end ].

Ltac close_length :=
  match goal with
  | H : Ok (_, ?l) = Ok (_, ?l') |- length ?l' = _ =>
      injection H as _ <-
  | H : Ok (_, ?l, _) = Ok (_, ?l', _) |- length ?l' = _ =>
      injection H as _ <- _
  end;
  repeat match goal with
  | H : setitem _ _ _ = Ok _ |- _ => apply setitem_length in H; rewrite H; clear H
  end;
  reflexivity.

Lemma threereg_regs_length pc regs instr pc' regs' :
  threereg pc regs instr = Ok (pc', regs') -> length regs' = length regs.
Proof. unfold threereg. intros H. invert_run H; close_length. Qed.

Lemma tworegImm_regs_length pc regs instr pc' regs' :
  tworegImm pc regs instr = Ok (pc', regs') -> length regs' = length regs.
Proof. unfold tworegImm. intros H. invert_run H; close_length. Qed.

Lemma memImm_regs_length pc regs memory instr pc' regs' memory' :
  memImm pc regs memory instr = Ok (pc', regs', memory') ->
  length regs' = length regs.
Proof. unfold memImm. intros H. invert_run H; close_length. Qed.

Lemma j_or_jal_regs_length pc regs instr imm halted regs' :
  j_or_jal pc regs instr = Ok (imm, halted, regs') -> length regs' = length regs.
Proof.
  unfold j_or_jal. intros (regs1 & Hlink & (imm1 & _ & H)%bind_Ok)%bind_Ok.
  assert (Hlen : length regs1 = length regs).
  { revert Hlink. destruct (str_eqb _ _).
    - apply setitem_length.
    - by intros [= <-]. }
  revert H. destruct (pc =? imm1); intros [= _ _ <-]; exact Hlen.
Qed.

Lemma cycle_regs_length m m' halt :
  cycle m = Ok (m', halt) -> length (regs m') = length (regs m).
Proof.
  unfold cycle. intros (instr & _ & H)%bind_Ok. revert H.
  destruct (str_eqb _ _).
  { intros ([pc' regs'] & Hh & [= <- _])%bind_Ok.
    by eapply threereg_regs_length. }
  destruct (_ || _).
  { intros ([pc' regs'] & Hh & [= <- _])%bind_Ok.
    by eapply tworegImm_regs_length. }
  destruct (str_eqb _ _).
  { intros ([[pc' regs'] memory'] & Hh & [= <- _])%bind_Ok.
    by eapply memImm_regs_length. }
  destruct (str_eqb _ _).
  { intros (pc' & _ & [= <- _])%bind_Ok. reflexivity. }
  destruct (str_eqb _ _).
  { intros ([[imm halted] regs'] & Hh & H)%bind_Ok. revert H.
    destruct halted; intros [= <- _]; by eapply j_or_jal_regs_length. }
  by intros [= <- _].
Qed.

(** Every state the loop reaches from [main]'s initial state has eight
    registers. *)
Lemma reachable_regs_length n : forall mem m halt,
  after n (initial mem) = Ok (m, halt) -> length (regs m) = NUM_REGS.
Proof.
  induction n as [|n IH]; intros mem m halt; cbn [after].
  - intros [= <- _]. apply length_replicate.
  - intros ([m1 h1] & Hn & H)%bind_Ok. apply IH in Hn. revert H.
    destruct h1.
    + intros [= <- _]. exact Hn.
    + intros Hc%cycle_regs_length. congruence.
Qed.

(** ** The loader *)

Lemma length_numbered groups : forall start,
  length (numbered start groups) = length groups.
Proof.
  induction groups as [|g rest IH]; intros start; simpl; [done|]. by rewrite IH.
Qed.

Lemma load_from_numbered groups : forall start words mem,
  reads groups words ->
  (N.to_nat start + length words <= length mem)%nat ->
  load_from (Z.of_N start) (numbered start groups) mem
  = Ok (take (N.to_nat start) mem ++ words
        ++ drop (N.to_nat start + length words) mem).
Proof.
  induction groups as [|g rest IH]; intros start words mem Hread Hlen.
  - apply Forall2_nil_inv_l in Hread as ->. cbn [numbered load_from length app].
    by rewrite Nat.add_0_r, take_drop.
  - apply Forall2_cons_inv_l in Hread as (w & ws & Hw & Hws & ->).
    cbn [length] in Hlen. cbn [numbered load_from].
    rewrite Hw. cbn [bind]. rewrite Z.eqb_refl. cbn [negb].
    rewrite setitem_nonneg by lia. cbn [bind].
    replace (Z.to_nat (Z.of_N start)) with (N.to_nat start) by lia.
    replace (Z.of_N start + 1) with (Z.of_N (N.succ start)) by lia.
    rewrite (IH _ ws) by (rewrite ?length_insert; done || lia).
    f_equal.
    replace (N.to_nat (N.succ start)) with (S (N.to_nat start)) by lia.
    rewrite (take_S_r _ _ w) by (apply list_lookup_insert_eq; lia).
    rewrite take_insert_ge by lia.
    rewrite drop_insert_lt by lia.
    cbn [length].
    replace (N.to_nat start + S (length ws))%nat
      with (S (N.to_nat start) + length ws)%nat by lia.
    by rewrite <- app_assoc.
Qed.

Lemma load_from_numbered_0 groups words mem :
  reads groups words ->
  (length words <= length mem)%nat ->
  load_from 0 (numbered 0 groups) mem = Ok (words ++ drop (length words) mem).
Proof.
  intros Hread Hlen. exact (load_from_numbered groups 0%N words mem Hread Hlen).
Qed.

Lemma load_from_Ok_numbered lines : forall start mem mem',
  (N.to_nat start <= length mem)%nat ->
  load_from (Z.of_N start) lines mem = Ok mem' ->
  exists groups words,
    lines = numbered start groups /\ reads groups words
    /\ (N.to_nat start + length words <= length mem)%nat.
Proof.
  induction lines as [|[|addr g] rest IH]; intros start mem mem' Hstart;
    cbn [load_from].
  - intros _. exists [], []. split; [done|].
    split; [unfold reads; constructor | simpl; lia].
  - discriminate.
  - intros (v & Hv & Hrest)%bind_Ok. revert Hrest.
    destruct (Z.eqb_spec (Z.of_N addr) (Z.of_N start)) as [Heq|Hne];
      cbn [negb]; [|discriminate].
    apply N2Z.inj in Heq as ->.
    intros (mem1 & Hset & Hrest)%bind_Ok.
    replace (Z.of_N start + 1) with (Z.of_N (N.succ start)) in Hrest by lia.
    pose proof (setitem_length _ _ _ _ Hset) as Hlen1.
    assert (Hlt : Z.of_N start < Z.of_nat (length mem)).
    { destruct (Z_lt_le_dec (Z.of_N start) (Z.of_nat (length mem))) as [|Hge];
        [done|].
      unfold setitem in Hset. rewrite index_of_out in Hset by lia.
      discriminate. }
    apply IH in Hrest as (groups & words & -> & Hread & Hlen); [|lia].
    exists (g :: groups), (v :: words). split; [done|].
    split; [unfold reads; by constructor|]. cbn [length]. lia.
Qed.

Lemma load_from_app l1 : forall l2 e mem,
  load_from e (l1 ++ l2) mem
  = (let* mem1 := load_from e l1 mem in
     load_from (e + Z.of_nat (length l1)) l2 mem1).
Proof.
  induction l1 as [|[|addr g] rest IH]; intros l2 e mem;
    cbn [app load_from length].
  - cbn [bind]. by rewrite Z.add_0_r.
  - reflexivity.
  - destruct (int2 g) as [v|err]; cbn [bind]; [|done].
    destruct (negb _); [done|].
    destruct (setitem mem (Z.of_N addr) v) as [mem1|err]; cbn [bind]; [|done].
    rewrite IH. do 2 f_equal. lia.
Qed.

Lemma digits_acc_Raise s : forall acc e,
  digits_acc acc s = Raise e -> e = ValueError.
Proof.
  induction s as [|c s IH]; intros acc e; cbn [digits_acc]; [discriminate|].
  destruct (bit_of c); [apply IH | by intros [= <-]].
Qed.

Lemma int2_Raise s e : int2 s = Raise e -> e = ValueError.
Proof.
  unfold int2. destruct s as [|z [|b rest]].
  - by intros [= <-].
  - apply digits_acc_Raise.
  - destruct (_ && _).
    + destruct rest; [by intros [= <-] | apply digits_acc_Raise].
    + apply digits_acc_Raise.
Qed.

Lemma load_from_overflow groups : forall start words mem rest,
  reads groups words ->
  (N.to_nat start <= length mem < N.to_nat start + length words)%nat ->
  load_from (Z.of_N start) (numbered start groups ++ rest) mem = Raise IndexError.
Proof.
  induction groups as [|g groups IH]; intros start words mem rest Hread Hlen.
  - apply Forall2_nil_inv_l in Hread as ->. simpl in Hlen. lia.
  - apply Forall2_cons_inv_l in Hread as (w & ws & Hw & Hws & ->).
    cbn [length] in Hlen. cbn [numbered app load_from].
    rewrite Hw. cbn [bind]. rewrite Z.eqb_refl. cbn [negb].
    destruct (decide (N.to_nat start < length mem)%nat) as [Hlt|Hge].
    + rewrite setitem_nonneg by lia. cbn [bind].
      replace (Z.of_N start + 1) with (Z.of_N (N.succ start)) by lia.
      apply (IH _ ws); [done|]. rewrite length_insert. lia.
    + unfold setitem. rewrite index_of_out by lia. reflexivity.
Qed.

(** X1. Loading lines numbered from 0 whose digit groups read as [words]
    into a memory with room for them overwrites the first cells with
    [words], in order, and leaves every later cell as it was. *)
Theorem load_round_trip (groups : list str) (words mem : list Z) :
  reads groups words ->
  (length words <= length mem)%nat ->
  load_machine_code (numbered 0 groups) mem
  = Ok (words ++ drop (length words) mem).
Proof.
  intros Hread Hlen. unfold load_machine_code.
  by apply load_from_numbered_0.
Qed.

Lemma load_round_trip_witness :
  load_machine_code (numbered 0 groups_demo) [9; 9; 9; 9; 9]
  = Ok ([57477; 5; 16386] ++ drop (length [57477; 5; 16386]) [9; 9; 9; 9; 9]).
Proof.
  apply (load_round_trip groups_demo [57477; 5; 16386] [9; 9; 9; 9; 9]).
  - unfold reads. repeat constructor.
  - simpl. lia.
Defined.

(** X2. The loader returns normally only on such input: every line
    matched, the addresses are 0, 1, 2, ... in order, every digit group
    is binary, and there are no more lines than memory cells; the memory
    it leaves is then the one of X1. *)
Theorem load_accepts_only_sequences (machine_code : list line)
    (mem mem' : list Z) :
  load_machine_code machine_code mem = Ok mem' ->
  exists groups words,
    machine_code = numbered 0 groups
    /\ reads groups words
    /\ (length words <= length mem)%nat
    /\ mem' = words ++ drop (length words) mem.
Proof.
  intros Hload. pose proof Hload as Hload'. unfold load_machine_code in Hload.
  apply (load_from_Ok_numbered _ 0%N) in Hload
    as (groups & words & -> & Hread & Hlen); [|simpl; lia].
  exists groups, words. repeat split; try done.
  unfold load_machine_code in Hload'.
  rewrite (load_from_numbered_0 groups words) in Hload' by done. congruence.
Qed.

Lemma load_accepts_only_sequences_witness :
  exists groups words,
    prog_add = numbered 0 groups
    /\ reads groups words
    /\ (length words <= length [0; 0; 0; 0; 0])%nat
    /\ [57477; 57603; 1328; 16387; 0]
       = words ++ drop (length words) [0; 0; 0; 0; 0].
Proof.
  apply (load_accepts_only_sequences prog_add [0; 0; 0; 0; 0]). reflexivity.
Defined.

(** X3. After a good prefix that fits the memory, the first bad line
    decides the exception, whatever follows it: a line the pattern does
    not match raises the parse error; a matched line whose digit group is
    not binary raises the value error, before its address is looked at;
    a matched line with a binary group and an address other than its
    position raises the sequence error. *)
Theorem load_first_bad_line (groups : list str) (words mem : list Z)
    (rest : list line) :
  reads groups words ->
  (length words <= length mem)%nat ->
  load_machine_code (numbered 0 groups ++ NoMatch :: rest) mem
  = Raise CantParseLine
  /\ (forall addr g e, int2 g = Raise e ->
      load_machine_code (numbered 0 groups ++ Matched addr g :: rest) mem
      = Raise ValueError)
  /\ (forall addr g v, int2 g = Ok v -> addr <> N.of_nat (length groups) ->
      load_machine_code (numbered 0 groups ++ Matched addr g :: rest) mem
      = Raise OutOfSequence).
Proof.
  intros Hread Hlen. unfold load_machine_code.
  assert (Hpre : forall l,
    load_from 0 (numbered 0 groups ++ l) mem
    = load_from (Z.of_nat (length groups)) l (words ++ drop (length words) mem)).
  { intros l. rewrite load_from_app.
    rewrite (load_from_numbered_0 groups words mem Hread Hlen).
    cbn [bind]. by rewrite length_numbered. }
  split; [|split].
  - by rewrite Hpre.
  - intros addr g e He. rewrite Hpre. cbn [load_from]. rewrite He. cbn [bind].
    by rewrite (int2_Raise _ _ He).
  - intros addr g v Hv Haddr. rewrite Hpre. cbn [load_from]. rewrite Hv.
    cbn [bind].
    destruct (Z.eqb_spec (Z.of_N addr) (Z.of_nat (length groups))) as [Heq|Hne];
      [|done].
    exfalso. apply Haddr. lia.
Qed.

Lemma load_first_bad_line_witness :
  load_machine_code (numbered 0 groups_demo ++ [NoMatch]) [0; 0; 0; 0; 0]
  = Raise CantParseLine
  /\ load_machine_code (numbered 0 groups_demo ++ [Matched 9 (lit "012")])
       [0; 0; 0; 0; 0]
     = Raise ValueError
  /\ load_machine_code (numbered 0 groups_demo ++ [Matched 9 (lit "1")])
       [0; 0; 0; 0; 0]
     = Raise OutOfSequence.
Proof.
  destruct (load_first_bad_line groups_demo [57477; 5; 16386] [0; 0; 0; 0; 0] [])
    as (H1 & H2 & H3).
  - unfold reads. repeat constructor.
  - simpl. lia.
  - split; [exact H1|]. split.
    + apply (H2 9%N (lit "012") ValueError). reflexivity.
    + apply (H3 9%N (lit "1") 1); [reflexivity | discriminate].
Defined.

(** X4. A well-formed file with more lines than the memory has cells
    raises the index error, at the first line past the end, whatever
    comes after. *)
Theorem load_overflow (groups : list str) (words mem : list Z)
    (rest : list line) :
  reads groups words ->
  (length mem < length words)%nat ->
  load_machine_code (numbered 0 groups ++ rest) mem = Raise IndexError.
Proof.
  intros Hread Hlen. unfold load_machine_code.
  apply (load_from_overflow groups 0%N words); [done|]. simpl. lia.
Qed.

Lemma load_overflow_witness :
  load_machine_code (numbered 0 groups_demo ++ [NoMatch]) [0; 0]
  = Raise IndexError.
Proof.
  apply (load_overflow groups_demo [57477; 5; 16386] [0; 0] [NoMatch]).
  - unfold reads. repeat constructor.
  - simpl. lia.
Defined.

(** X5. [main] on a well-formed file of at most [MEM_SIZE] lines runs the
    loop from pc 0, eight zero registers and the memory made of the
    file's words followed by zeros. *)
Theorem main_runs_on_image (groups : list str) (words : list Z) (fuel : nat) :
  reads groups words ->
  (length words <= Z.to_nat MEM_SIZE)%nat ->
  load_machine_code (numbered 0 groups) (replicate (Z.to_nat MEM_SIZE) 0)
  = Ok (image words)
  /\ main (numbered 0 groups) fuel = main_loop fuel false (initial (image words)).
Proof.
  intros Hread Hlen.
  assert (Hload : load_machine_code (numbered 0 groups)
                    (replicate (Z.to_nat MEM_SIZE) 0) = Ok (image words)).
  { unfold load_machine_code.
    rewrite (load_from_numbered_0 groups words)
      by (rewrite ?length_replicate; done).
    by rewrite drop_replicate. }
  split; [exact Hload|]. unfold main. by rewrite Hload.
Qed.

Lemma main_runs_on_image_witness :
  load_machine_code (numbered 0 groups_demo) (replicate (Z.to_nat MEM_SIZE) 0)
  = Ok (image [57477; 5; 16386])
  /\ main (numbered 0 groups_demo) 3
     = main_loop 3 false (initial (image [57477; 5; 16386])).
Proof.
  apply (main_runs_on_image groups_demo [57477; 5; 16386] 3).
  - unfold reads. repeat constructor.
  - compute_done.
Defined.

(** ** The text of a word and its fields *)

Lemma is_bit_eq c d :
  is_bit c -> is_bit d ->
  (if bool_decide (c = "1"%char) then 1 else 0)
  = (if bool_decide (d = "1"%char) then 1 else 0) -> c = d.
Proof.
  intros [-> | ->] [-> | ->]; repeat case_bool_decide; try done; lia.
Qed.

(** Digit strings of the same length that denote the same number are
    equal. *)
Lemma val_inj s : forall t,
  bits s -> bits t -> length s = length t -> val s = val t -> s = t.
Proof.
  induction s as [|c s IH]; intros [|d t] Hs Ht Hlen Hval; try done.
  apply Forall_cons in Hs as [Hc Hs]. apply Forall_cons in Ht as [Hd Ht].
  injection Hlen as Hlen. rewrite !val_cons, <- Hlen in Hval.
  pose proof (val_bound s) as Hbs. pose proof (val_bound t) as Hbt.
  rewrite <- Hlen in Hbt.
  assert (Hbit : (if bool_decide (c = "1"%char) then 1 else 0)
                 = (if bool_decide (d = "1"%char) then 1 else 0)).
  { repeat case_bool_decide; nia. }
  f_equal.
  - by apply is_bit_eq.
  - apply IH; try done. rewrite Hbit in Hval. lia.
Qed.

(** The leading and the trailing digits are quotient and remainder. *)
Lemma val_split (s : str) (a : nat) :
  val (take a s) = val s / 2 ^ Z.of_nat (length s - a)
  /\ val (drop a s) = val s mod 2 ^ Z.of_nat (length s - a).
Proof.
  pose proof (val_app (take a s) (drop a s)) as Happ.
  rewrite take_drop, length_drop in Happ.
  pose proof (val_bound (drop a s)) as Hb. rewrite length_drop in Hb.
  split.
  - apply (Z.div_unique _ _ _ (val (drop a s))); [lia|]. lia.
  - apply (Z.mod_unique _ _ (val (take a s))); [lia|]. lia.
Qed.

Lemma val_slice16 instr (a b : nat) :
  length instr = 16%nat -> (a <= b <= 16)%nat ->
  val (slice a b instr)
  = (val instr mod 2 ^ Z.of_nat (16 - a)) / 2 ^ Z.of_nat (16 - b).
Proof.
  intros Hlen Hab. unfold slice.
  destruct (val_split (drop a instr) (b - a)) as [-> _].
  destruct (val_split instr a) as [_ ->].
  rewrite length_drop, Hlen. do 3 f_equal. lia.
Qed.

Lemma int2_instr_of w : 0 <= w -> int2 (instr_of w) = Ok w.
Proof.
  intros Hw. destruct w as [|p|p]; [reflexivity| |lia].
  rewrite instr_of_pos. rewrite int2_bits.
  - by rewrite val_replicate_zero, bin_pos_val.
  - apply bits_app; [apply bits_replicate_zero | apply bin_pos_bits].
  - destruct (bin_pos_head p) as [r ->]. by destruct (16 - _)%nat.
Qed.

Lemma instr_of_val g :
  bits g -> (length g <= 16)%nat ->
  instr_of (val g) = replicate (16 - length g) "0"%char ++ g.
Proof.
  intros Hg Hlen.
  assert (Hw : 0 <= val g < 2 ^ 16).
  { pose proof (val_bound g).
    assert (2 ^ Z.of_nat (length g) <= 2 ^ 16) by (apply Z.pow_le_mono_r; lia).
    lia. }
  destruct (instr_of_wf16 _ Hw) as [[Hl Hb] Hv].
  apply val_inj.
  - done.
  - apply bits_app; [apply bits_replicate_zero | done].
  - rewrite Hl, length_app, length_replicate. lia.
  - by rewrite Hv, val_replicate_zero.
Qed.

(** X6. The text [main] builds from a non-negative memory word reads
    back, by [int(_, 2)], as that word; it has exactly sixteen
    characters when the word is below 2^16 and more otherwise. *)
Theorem word_text_round_trip (w : Z) :
  0 <= w ->
  int2 (instr_of w) = Ok w
  /\ (w < 2 ^ 16 -> length (instr_of w) = 16%nat)
  /\ (2 ^ 16 <= w -> (16 < length (instr_of w))%nat).
Proof.
  intros Hw. split; [by apply int2_instr_of|]. split.
  - intros Hlt. by destruct (instr_of_wf16 w ltac:(lia)) as [[Hl _] _].
  - intros Hge. destruct w as [|p|p]; [lia| |lia].
    rewrite instr_of_pos, length_app, length_replicate.
    pose proof (bin_pos_length_ge p 16 Hge). lia.
Qed.

Lemma word_text_round_trip_witness :
  int2 (instr_of 57477) = Ok 57477
  /\ (57477 < 2 ^ 16 -> length (instr_of 57477) = 16%nat)
  /\ (2 ^ 16 <= 57477 -> (16 < length (instr_of 57477))%nat).
Proof. apply (word_text_round_trip 57477). lia. Defined.

(** X7. A group of one to sixteen binary digits of the file, once loaded
    and fetched, comes back as the same digits, padded with zeros on the
    left to sixteen characters. *)
Theorem loaded_text_read_back (g : str) :
  bits g -> g <> [] -> (length g <= 16)%nat ->
  int2 g = Ok (val g)
  /\ instr_of (val g) = replicate (16 - length g) "0"%char ++ g.
Proof.
  intros Hg Hne Hlen. split; [by apply int2_bits | by apply instr_of_val].
Qed.

Lemma loaded_text_read_back_witness :
  int2 (lit "101") = Ok (val (lit "101"))
  /\ instr_of (val (lit "101"))
     = replicate (16 - length (lit "101")) "0"%char ++ lit "101".
Proof.
  apply (loaded_text_read_back (lit "101")).
  - compute_done.
  - discriminate.
  - simpl. lia.
Defined.

(** X8. For a word below 2^16, the slices of its text that the handlers
    read are the bit fields of the word: the three leading digits are
    bits 15..13, the register fields are bits 12..10, 9..7 and 6..4, the
    function code is bits 3..0, the immediate is bits 6..0 read in two's
    complement, and the jump target is bits 12..0. *)
Theorem fields_by_shift_and_mask (w : Z) :
  0 <= w < 2 ^ 16 ->
  let instr := instr_of w in
  val (upto 3 instr) = Z.shiftr w 13
  /\ val (upto 2 instr) = Z.shiftr w 14
  /\ Z.of_nat (reg_field 3 6 instr) = Z.land (Z.shiftr w 10) 7
  /\ Z.of_nat (reg_field 6 9 instr) = Z.land (Z.shiftr w 7) 7
  /\ Z.of_nat (reg_field 9 12 instr) = Z.land (Z.shiftr w 4) 7
  /\ val (last_n 4 instr) = Z.land w 15
  /\ field7 instr = Z.land w 127
  /\ simm7 instr = (if Z.testbit w 6 then Z.land w 127 - 128 else Z.land w 127)
  /\ val (from 3 instr) = Z.land w 8191.
Proof.
  intros Hw instr. destruct (instr_of_wf16 w Hw) as [[Hlen Hbits] Hval].
  fold instr in Hlen, Hbits, Hval.
  change (Z.land (Z.shiftr w 10) 7) with (Z.land (Z.shiftr w 10) (Z.ones 3)).
  change (Z.land (Z.shiftr w 7) 7) with (Z.land (Z.shiftr w 7) (Z.ones 3)).
  change (Z.land (Z.shiftr w 4) 7) with (Z.land (Z.shiftr w 4) (Z.ones 3)).
  change (Z.land w 15) with (Z.land w (Z.ones 4)).
  change (Z.land w 127) with (Z.land w (Z.ones 7)).
  change (Z.land w 8191) with (Z.land w (Z.ones 13)).
  rewrite !Z.land_ones, !Z.shiftr_div_pow2 by lia.
  assert (Hf7 : field7 instr = w mod 2 ^ 7).
  { unfold field7, from. destruct (val_split instr 9) as [_ ->].
    by rewrite Hlen, Hval. }
  repeat split.
  - unfold upto. destruct (val_split instr 3) as [-> _]. by rewrite Hlen, Hval.
  - unfold upto. destruct (val_split instr 2) as [-> _]. by rewrite Hlen, Hval.
  - unfold reg_field. rewrite val_slice16, Hval by (done || lia).
    rewrite Z2Nat.id by (apply Z.div_pos; [apply Z.mod_pos_bound|]; lia).
    change (2 ^ Z.of_nat (16 - 3)) with 8192.
    change (2 ^ Z.of_nat (16 - 6)) with 1024.
    change (2 ^ 10) with 1024. change (2 ^ 3) with 8.
    clear. Z.div_mod_to_equations. lia.
  - unfold reg_field. rewrite val_slice16, Hval by (done || lia).
    rewrite Z2Nat.id by (apply Z.div_pos; [apply Z.mod_pos_bound|]; lia).
    change (2 ^ Z.of_nat (16 - 6)) with 1024.
    change (2 ^ Z.of_nat (16 - 9)) with 128.
    change (2 ^ 7) with 128. change (2 ^ 3) with 8.
    clear. Z.div_mod_to_equations. lia.
  - unfold reg_field. rewrite val_slice16, Hval by (done || lia).
    rewrite Z2Nat.id by (apply Z.div_pos; [apply Z.mod_pos_bound|]; lia).
    change (2 ^ Z.of_nat (16 - 9)) with 128.
    change (2 ^ Z.of_nat (16 - 12)) with 16.
    change (2 ^ 4) with 16. change (2 ^ 3) with 8.
    clear. Z.div_mod_to_equations. lia.
  - unfold last_n. destruct (val_split instr (length instr - 4)) as [_ ->].
    by rewrite Hlen, Hval.
  - exact Hf7.
  - unfold simm7. rewrite Hf7.
    assert (Hbit : Z.testbit w 6 = (64 <=? w mod 2 ^ 7)).
    { destruct (Z.testbit w 6) eqn:Hb.
      - apply Z.testbit_true in Hb; [|lia]. symmetry. apply Z.leb_le.
        revert Hb. change (2 ^ 6) with 64. change (2 ^ 7) with 128. clear.
        intros Hb. Z.div_mod_to_equations. lia.
      - symmetry. apply Z.leb_gt.
        assert (Hne : (w / 2 ^ 6) mod 2 <> 1).
        { intros H1. apply Z.testbit_true in H1; [congruence | lia]. }
        revert Hne. change (2 ^ 6) with 64. change (2 ^ 7) with 128. clear.
        intros Hne. Z.div_mod_to_equations. lia. }
    by rewrite Hbit.
  - unfold from. destruct (val_split instr 3) as [_ ->]. by rewrite Hlen, Hval.
Qed.

Lemma fields_by_shift_and_mask_witness :
  let instr := instr_of 57477 in
  val (upto 3 instr) = Z.shiftr 57477 13
  /\ val (upto 2 instr) = Z.shiftr 57477 14
  /\ Z.of_nat (reg_field 3 6 instr) = Z.land (Z.shiftr 57477 10) 7
  /\ Z.of_nat (reg_field 6 9 instr) = Z.land (Z.shiftr 57477 7) 7
  /\ Z.of_nat (reg_field 9 12 instr) = Z.land (Z.shiftr 57477 4) 7
  /\ val (last_n 4 instr) = Z.land 57477 15
  /\ field7 instr = Z.land 57477 127
  /\ simm7 instr
     = (if Z.testbit 57477 6 then Z.land 57477 127 - 128 else Z.land 57477 127)
  /\ val (from 3 instr) = Z.land 57477 8191.
Proof. apply (fields_by_shift_and_mask 57477). lia. Defined.

(** The three leading digits of a well-formed word. *)
Lemma wf16_prefix instr :
  wf16 instr ->
  exists c0 c1 c2 rest,
    instr = c0 :: c1 :: c2 :: rest /\ is_bit c0 /\ is_bit c1 /\ is_bit c2.
Proof.
  intros [Hlen Hbits].
  destruct instr as [|c0 [|c1 [|c2 rest]]]; try discriminate Hlen.
  apply Forall_cons in Hbits as [H0 Hbits].
  apply Forall_cons in Hbits as [H1 Hbits].
  apply Forall_cons in Hbits as [H2 Hbits].
  by exists c0, c1, c2, rest.
Qed.

Lemma wf16_family instr :
  wf16 instr ->
  upto 3 instr = lit "000" \/ upto 3 instr = lit "001"
  \/ upto 3 instr = lit "010" \/ upto 3 instr = lit "011"
  \/ upto 3 instr = lit "100" \/ upto 3 instr = lit "101"
  \/ upto 3 instr = lit "110" \/ upto 3 instr = lit "111".
Proof.
  intros (c0 & c1 & c2 & rest & -> & H0 & H1 & H2)%wf16_prefix.
  destruct H0 as [-> | ->], H1 as [-> | ->], H2 as [-> | ->]; cbn; tauto.
Qed.

(** X9. Every word below 2^16 passes one of the five tests of the
    dispatch, so the loop body never falls through on it; which test
    depends on the range of the word alone. *)
Theorem dispatch_total (w : Z) :
  0 <= w < 2 ^ 16 ->
  let instr := instr_of w in
  (upto 3 instr = lit "000" /\ w < 2 ^ 13)
  \/ ((upto 3 instr = lit "001" \/ upto 3 instr = lit "111")
      /\ (2 ^ 13 <= w < 2 ^ 14 \/ 7 * 2 ^ 13 <= w))
  \/ (upto 2 instr = lit "10" /\ 2 ^ 15 <= w < 3 * 2 ^ 14)
  \/ (upto 3 instr = lit "110" /\ 3 * 2 ^ 14 <= w < 7 * 2 ^ 13)
  \/ (upto 2 instr = lit "01" /\ 2 ^ 14 <= w < 2 ^ 15).
Proof.
  intros Hw instr. destruct (instr_of_wf16 w Hw) as [Hwf Hval].
  fold instr in Hwf, Hval.
  destruct (val_split instr 3) as [H3 _].
  rewrite (proj1 Hwf), Hval in H3. change (2 ^ Z.of_nat (16 - 3)) with 8192 in H3.
  unfold upto.
  destruct (wf16_family _ Hwf) as [H|[H|[H|[H|[H|[H|[H|H]]]]]]];
    unfold upto in H; rewrite H in H3;
    match type of H3 with
    | val ?s = _ =>
        let v := eval vm_compute in (val s) in change (val s) with v in H3
    end;
    pose proof (upto_2_of_3 _ _ H) as H2; unfold upto in H2;
    [ left | right; left | do 4 right | do 4 right
    | do 2 right; left | do 2 right; left | do 3 right; left | right; left ];
    (split; [first [exact H | exact H2 | by left | by right]|]);
    clear - H3 Hw; Z.div_mod_to_equations; lia.
Qed.

Lemma dispatch_total_witness :
  let instr := instr_of 57477 in
  (upto 3 instr = lit "000" /\ 57477 < 2 ^ 13)
  \/ ((upto 3 instr = lit "001" \/ upto 3 instr = lit "111")
      /\ (2 ^ 13 <= 57477 < 2 ^ 14 \/ 7 * 2 ^ 13 <= 57477))
  \/ (upto 2 instr = lit "10" /\ 2 ^ 15 <= 57477 < 3 * 2 ^ 14)
  \/ (upto 3 instr = lit "110" /\ 3 * 2 ^ 14 <= 57477 < 7 * 2 ^ 13)
  \/ (upto 2 instr = lit "01" /\ 2 ^ 14 <= 57477 < 2 ^ 15).
Proof. apply (dispatch_total 57477). lia. Defined.

(** ** Register handlers *)

Lemma insert_frame (regs : list Z) (d i : nat) v :
  i <> d -> <[d := v]> regs !! i = regs !! i.
Proof. intros Hi. by apply list_lookup_insert_ne. Qed.

(** One conjunct about a function code [c'] in the case of code [c]. *)
Ltac code_hyp E Hdlt :=
  let Hc := fresh "Hc" in
  intros Hc; rewrite E in Hc;
  first [ by (exfalso; vm_compute in Hc; discriminate Hc)
        | split; [by rewrite ?list_lookup_insert_eq by exact Hdlt | done] ].

Ltac code_case instr c Hdlt :=
  let E := fresh "E" in
  destruct (str_eqb (last_n 4 instr) (lit c)) eqn:E;
  [ apply str_eqb_true in E; do 2 eexists;
    (split; [reflexivity|]);
    (split; [by rewrite ?length_insert|]);
    (split; [by intros; rewrite ?insert_frame|]);
    (split; [intros Hok; try (apply Forall_insert; [done|]);
             first [ done | apply word_ok_mod | apply word_ok_flag
                   | by apply word_ok_land; apply regs_lookup_ok
                   | by apply word_ok_lor; apply regs_lookup_ok ]|]);
    (split; [code_hyp E Hdlt|]); (split; [code_hyp E Hdlt|]);
    (split; [code_hyp E Hdlt|]); (split; [code_hyp E Hdlt|]);
    code_hyp E Hdlt
  | apply str_eqb_false in E ].

(** X10. On a well-formed word and eight registers the three-register
    handler never raises; it changes at most the destination register
    (register 0 included), keeps in-range registers in range, and writes
    the sum or difference modulo 2^16, the bitwise and, or the bitwise
    or; the register jump writes nothing and returns the register's
    value as the next pc. *)
Theorem threereg_writes_destination_only (pc : Z) (regs : list Z) (instr : str) :
  wf16 instr -> length regs = NUM_REGS ->
  let d := reg_field 9 12 instr in
  let a := regs !!! reg_field 3 6 instr in
  let b := regs !!! reg_field 6 9 instr in
  exists pc' regs',
    threereg pc regs instr = Ok (pc', regs')
    /\ length regs' = NUM_REGS
    /\ (forall i, i <> d -> regs' !! i = regs !! i)
    /\ (Forall word_ok regs -> Forall word_ok regs')
    /\ (last_n 4 instr = lit "0000" ->
        regs' !! d = Some ((a + b) mod 2 ^ 16) /\ pc' = pc + 1)
    /\ (last_n 4 instr = lit "0001" ->
        regs' !! d = Some ((a - b) mod 2 ^ 16) /\ pc' = pc + 1)
    /\ (last_n 4 instr = lit "0010" ->
        regs' !! d = Some (Z.land a b) /\ pc' = pc + 1)
    /\ (last_n 4 instr = lit "0011" ->
        regs' !! d = Some (Z.lor a b) /\ pc' = pc + 1)
    /\ (last_n 4 instr = lit "1000" -> regs' = regs /\ pc' = a).
Proof.
  intros Hwf Hregs d a b.
  pose proof (int2_reg_field 9 instr Hwf ltac:(lia)) as [_ Hd].
  change (9 + 3)%nat with 12%nat in Hd. fold d in Hd.
  assert (Hdlt : (d < length regs)%nat) by (rewrite Hregs; exact Hd).
  rewrite threereg_wf by done. cbn zeta. fold d a b.
  code_case instr "0000" Hdlt. code_case instr "0001" Hdlt.
  code_case instr "0010" Hdlt. code_case instr "0011" Hdlt.
  code_case instr "0100" Hdlt. code_case instr "1000" Hdlt.
  do 2 eexists. split; [reflexivity|]. split; [done|]. split; [done|].
  split; [done|]. repeat split; contradiction.
Qed.

Lemma threereg_writes_destination_only_witness :
  exists pc' regs',
    threereg 4 [0; 65535; 2; 0; 0; 0; 0; 0] (lit "0000010100110000")
    = Ok (pc', regs')
    /\ regs' !! 3%nat = Some 1 /\ pc' = 5.
Proof.
  destruct (threereg_writes_destination_only 4 [0; 65535; 2; 0; 0; 0; 0; 0]
              (lit "0000010100110000") ltac:(compute_done) eq_refl)
    as (pc' & regs' & H & _ & _ & _ & Hadd & _).
  exists pc', regs'. split; [exact H|]. exact (Hadd eq_refl).
Defined.

(** X11. Subtraction undoes addition, wrap-around included: after
    [add $d, $a, $b] and then [sub $d, $d, $b], with [$d] other than
    [$b], register [d] holds the old value of [$a] (assumed in range) and
    every other register is as before. *)
Theorem sub_undoes_add (pc : Z) (regs : list Z) (add sub : str) :
  wf16 add -> wf16 sub -> length regs = NUM_REGS ->
  last_n 4 add = lit "0000" -> last_n 4 sub = lit "0001" ->
  let d := reg_field 9 12 add in
  let a := regs !!! reg_field 3 6 add in
  reg_field 9 12 sub = d -> reg_field 3 6 sub = d ->
  reg_field 6 9 sub = reg_field 6 9 add ->
  d <> reg_field 6 9 add ->
  word_ok a ->
  exists regs1,
    threereg pc regs add = Ok (pc + 1, regs1)
    /\ threereg (pc + 1) regs1 sub = Ok (pc + 2, <[d := a]> regs).
Proof.
  intros Hadd Hsub Hregs Hcadd Hcsub d a Hd Hs Hb Hne Ha.
  pose proof (int2_reg_field 9 add Hadd ltac:(lia)) as [_ Hdlt].
  change (9 + 3)%nat with 12%nat in Hdlt. fold d in Hdlt.
  eexists. split.
  - rewrite threereg_wf by done. rewrite Hcadd. decide_codes. reflexivity.
  - rewrite threereg_wf by (done || by rewrite length_insert).
    rewrite Hcsub. decide_codes. rewrite Hd, Hs, Hb. fold d a.
    rewrite list_lookup_total_insert_eq by (rewrite Hregs; exact Hdlt).
    rewrite list_lookup_total_insert_ne by done.
    rewrite list_insert_insert_eq.
    replace (pc + 1 + 1) with (pc + 2) by lia.
    do 3 f_equal.
    rewrite Zminus_mod_idemp_l.
    replace (a + regs !!! reg_field 6 9 add - regs !!! reg_field 6 9 add)
      with a by lia.
    apply Z.mod_small. exact Ha.
Qed.

Lemma sub_undoes_add_witness :
  exists regs1,
    threereg 0 [0; 65535; 2; 7; 0; 0; 0; 0] (lit "0000010100010000")
    = Ok (0 + 1, regs1)
    /\ threereg (0 + 1) regs1 (lit "0000010100010001")
       = Ok (0 + 2, <[1%nat := 65535]> [0; 65535; 2; 7; 0; 0; 0; 0]).
Proof.
  apply (sub_undoes_add 0 [0; 65535; 2; 7; 0; 0; 0; 0]
           (lit "0000010100010000") (lit "0000010100010001"));
    try reflexivity; try compute_done.
Defined.

(** X12. On a well-formed word and eight registers the
    two-register-immediate handler never raises and always returns
    pc + 1; it changes at most the destination register, keeps in-range
    registers in range, and leaves the registers alone for any leading
    digits other than 001 and 111. *)
Theorem tworegImm_writes_destination_only (pc : Z) (regs : list Z) (instr : str) :
  wf16 instr -> length regs = NUM_REGS ->
  let d := reg_field 6 9 instr in
  let a := regs !!! reg_field 3 6 instr in
  exists regs',
    tworegImm pc regs instr = Ok (pc + 1, regs')
    /\ length regs' = NUM_REGS
    /\ (forall i, i <> d -> regs' !! i = regs !! i)
    /\ (Forall word_ok regs -> Forall word_ok regs')
    /\ (upto 3 instr = lit "111" ->
        regs' !! d = Some ((a + simm7 instr) mod 2 ^ 16))
    /\ (upto 3 instr = lit "001" ->
        regs' !! d = Some (if a <? simm7 instr mod 2 ^ 16 then 1 else 0))
    /\ (upto 3 instr <> lit "001" -> upto 3 instr <> lit "111" -> regs' = regs).
Proof.
  intros Hwf Hregs d a.
  pose proof (int2_reg_field 6 instr Hwf ltac:(lia)) as [_ Hd].
  change (6 + 3)%nat with 9%nat in Hd. fold d in Hd.
  assert (Hdlt : (d < length regs)%nat) by (rewrite Hregs; exact Hd).
  rewrite tworegImm_wf by done. cbn zeta. fold d a.
  destruct (str_eqb (upto 3 instr) (lit "001")) eqn:E1.
  { apply str_eqb_true in E1. eexists. split; [reflexivity|].
    split; [by rewrite length_insert|].
    split; [by intros; rewrite insert_frame|].
    split; [intros Hok; apply Forall_insert; [done|apply word_ok_flag]|].
    split; [intros H; rewrite E1 in H; exfalso; vm_compute in H; discriminate H|].
    split; [intros _; by rewrite list_lookup_insert_eq|].
    intros H. by destruct H. }
  destruct (str_eqb (upto 3 instr) (lit "111")) eqn:E2.
  { apply str_eqb_true in E2. apply str_eqb_false in E1. eexists.
    split; [reflexivity|].
    split; [by rewrite length_insert|].
    split; [by intros; rewrite insert_frame|].
    split; [intros Hok; apply Forall_insert; [done|apply word_ok_mod]|].
    split; [intros _; by rewrite list_lookup_insert_eq|].
    split; [intros H; by destruct E1|].
    intros _ H. by destruct H. }
  apply str_eqb_false in E1, E2. exists regs.
  split; [reflexivity|]. split; [done|]. split; [done|]. split; [done|].
  split; [intros H; by destruct E2|]. split; [intros H; by destruct E1|]. done.
Qed.

Lemma tworegImm_writes_destination_only_witness :
  exists regs',
    tworegImm 0 [0; 0; 0; 0; 0; 0; 0; 0] addi_minus_1 = Ok (0 + 1, regs')
    /\ regs' !! 1%nat = Some 65535.
Proof.
  destruct (tworegImm_writes_destination_only 0 [0; 0; 0; 0; 0; 0; 0; 0]
              addi_minus_1 ltac:(compute_done) eq_refl)
    as (regs' & H & _ & _ & _ & Haddi & _).
  exists regs'. split; [exact H|]. exact (Haddi eq_refl).
Defined.

(** ** Control transfers that do not halt *)

Lemma main_loop_spins m :
  cycle m = Ok (m, false) -> forall fuel, main_loop fuel false m = StillRunning m.
Proof.
  intros Hc fuel. induction fuel as [|fuel IH]; cbn [main_loop]; [done|].
  by rewrite Hc.
Qed.

Lemma machine_eta m : Machine (pc m) (regs m) (memory m) = m.
Proof. by destruct m. Qed.

Lemma fetch_word m w :
  getitem (memory m) (pc m) = Ok w -> fetch m = Ok (instr_of w).
Proof. intros Hw. unfold fetch. by rewrite Hw. Qed.

(** The cycle on a fetched word, by family. *)
Lemma cycle_threereg m w :
  getitem (memory m) (pc m) = Ok w ->
  upto 3 (instr_of w) = lit "000" ->
  cycle m = (let* (pc', regs') := threereg (pc m) (regs m) (instr_of w) in
             Ok (Machine pc' regs' (memory m), false)).
Proof.
  intros Hw Hop. unfold cycle. rewrite (fetch_word _ _ Hw). cbn [bind].
  by rewrite Hop, str_eqb_refl.
Qed.

Lemma cycle_jeq m w :
  getitem (memory m) (pc m) = Ok w ->
  upto 3 (instr_of w) = lit "110" ->
  cycle m = (let* pc' := jeq (pc m) (regs m) (instr_of w) in
             Ok (Machine pc' (regs m) (memory m), false)).
Proof.
  intros Hw Hop. unfold cycle. rewrite (fetch_word _ _ Hw). cbn [bind].
  rewrite (upto_2_of_3 _ _ Hop), Hop.
  change (take 2 (lit "110")) with (lit "11"). by decide_codes.
Qed.

Lemma cycle_memImm m w :
  getitem (memory m) (pc m) = Ok w ->
  upto 2 (instr_of w) = lit "10" ->
  cycle m = (let* (pc', regs', memory') :=
               memImm (pc m) (regs m) (memory m) (instr_of w) in
             Ok (Machine pc' regs' memory', false)).
Proof.
  intros Hw Hop. unfold cycle. rewrite (fetch_word _ _ Hw). cbn [bind].
  do 3 skip_family Hop. by rewrite Hop, str_eqb_refl.
Qed.

(** X13. A register jump moves pc to the register's value and changes
    nothing else; it never sets [halt], so a register jump to its own
    address leaves the loop running for ever on the same state. *)
Theorem jump_register_never_halts (m : machine) (w : Z) :
  getitem (memory m) (pc m) = Ok w ->
  0 <= w < 2 ^ 16 ->
  length (regs m) = NUM_REGS ->
  upto 3 (instr_of w) = lit "000" ->
  last_n 4 (instr_of w) = lit "1000" ->
  let target := regs m !!! reg_field 3 6 (instr_of w) in
  cycle m = Ok (Machine target (regs m) (memory m), false)
  /\ (target = pc m -> forall fuel, main_loop fuel false m = StillRunning m).
Proof.
  intros Hw Hrange Hregs Hop Hcode target.
  destruct (instr_of_wf16 w Hrange) as [Hwf _].
  assert (Hc : cycle m = Ok (Machine target (regs m) (memory m), false)).
  { rewrite (cycle_threereg m w Hw Hop), threereg_wf by done.
    rewrite Hcode. by decide_codes. }
  split; [exact Hc|].
  intros Htarget. apply main_loop_spins. by rewrite Hc, Htarget, machine_eta.
Qed.

Lemma jump_register_never_halts_witness :
  let m := Machine 1 [0; 1; 0; 0; 0; 0; 0; 0] [0; 1032; 0] in
  cycle m = Ok (Machine 1 [0; 1; 0; 0; 0; 0; 0; 0] [0; 1032; 0], false)
  /\ (1 = 1 -> forall fuel, main_loop fuel false m = StillRunning m).
Proof.
  exact (jump_register_never_halts
           (Machine 1 [0; 1; 0; 0; 0; 0; 0; 0] [0; 1032; 0])
           1032 eq_refl ltac:(compute_done) eq_refl eq_refl eq_refl).
Defined.

(** X14. An equality branch changes no register and no memory cell; the
    next pc is pc + 1 + offset when the two registers are equal and
    pc + 1 otherwise, hence between pc - 63 and pc + 64; it never sets
    [halt], so a taken branch with offset -1 leaves the loop running for
    ever on the same state. *)
Theorem branch_step (m : machine) (w : Z) :
  getitem (memory m) (pc m) = Ok w ->
  0 <= w < 2 ^ 16 ->
  length (regs m) = NUM_REGS ->
  upto 3 (instr_of w) = lit "110" ->
  let a := regs m !!! reg_field 3 6 (instr_of w) in
  let b := regs m !!! reg_field 6 9 (instr_of w) in
  let pc' := if a =? b then pc m + 1 + simm7 (instr_of w) else pc m + 1 in
  cycle m = Ok (Machine pc' (regs m) (memory m), false)
  /\ pc m - 63 <= pc' <= pc m + 64
  /\ (pc' = pc m -> forall fuel, main_loop fuel false m = StillRunning m).
Proof.
  intros Hw Hrange Hregs Hop a b pc'.
  destruct (instr_of_wf16 w Hrange) as [Hwf _].
  assert (Hc : cycle m = Ok (Machine pc' (regs m) (memory m), false)).
  { rewrite (cycle_jeq m w Hw Hop), jeq_wf by done. fold a b. subst pc'.
    by destruct (a =? b). }
  split; [exact Hc|]. split.
  - pose proof (simm7_range _ Hwf). subst pc'. destruct (a =? b); lia.
  - intros Hpc. apply main_loop_spins. by rewrite Hc, Hpc, machine_eta.
Qed.

Lemma branch_step_witness :
  let m := Machine 1 [0; 0; 0; 0; 0; 0; 0; 0] [0; 49279; 0] in
  cycle m = Ok (Machine 1 [0; 0; 0; 0; 0; 0; 0; 0] [0; 49279; 0], false)
  /\ 1 - 63 <= 1 <= 1 + 64
  /\ (1 = 1 -> forall fuel, main_loop fuel false m = StillRunning m).
Proof.
  exact (branch_step (Machine 1 [0; 0; 0; 0; 0; 0; 0; 0] [0; 49279; 0])
           49279 eq_refl ltac:(compute_done) eq_refl eq_refl).
Defined.

(** X15. A negative memory word at or below -2^12 matches none of the
    dispatch tests (its text carries the ["b"] of [bin] among its three
    leading characters): the cycle changes nothing, pc included, and the
    loop runs for ever on the same state. *)
Theorem unrecognised_word_spins (m : machine) (w : Z) :
  getitem (memory m) (pc m) = Ok w ->
  w <= - 2 ^ 12 ->
  cycle m = Ok (m, false)
  /\ forall fuel, main_loop fuel false m = StillRunning m.
Proof.
  intros Hw Hneg.
  assert (Hc : cycle m = Ok (m, false)).
  { unfold cycle. rewrite (fetch_word _ _ Hw). cbn [bind].
    destruct w as [|p|p]; [lia|lia|]. rewrite instr_of_neg.
    assert (Hlen : (12 < length (bin_pos p))%nat)
      by (apply bin_pos_length_ge; lia).
    destruct (bin_pos p) as [|c1 [|c2 r]]; cbn [length] in Hlen; [lia|lia|].
    assert (Hn : (16 - S (length (c1 :: c2 :: r)) <= 2)%nat)
      by (cbn [length]; lia).
    destruct (16 - S (length (c1 :: c2 :: r)))%nat as [|[|[|n]]]; [| | |lia];
      cbn [replicate app upto take];
      unfold str_eqb; repeat (case_bool_decide; [discriminate|]); reflexivity. }
  split; [exact Hc|]. by apply main_loop_spins.
Qed.

Lemma unrecognised_word_spins_witness :
  let m := Machine 0 [0; 0; 0; 0; 0; 0; 0; 0] [-4096; 0] in
  cycle m = Ok (m, false)
  /\ forall fuel, main_loop fuel false m = StillRunning m.
Proof.
  apply (unrecognised_word_spins (Machine 0 [0; 0; 0; 0; 0; 0; 0; 0] [-4096; 0])
           (-4096)); [reflexivity | compute_done].
Defined.

(** ** Memory accesses *)

Lemma getitem_Raise {A} (l : list A) i e :
  getitem l i = Raise e ->
  e = IndexError /\ (i < - Z.of_nat (length l) \/ Z.of_nat (length l) <= i).
Proof.
  unfold getitem. destruct (index_of (length l) i) as [k|] eqn:Hk.
  - pose proof (index_of_lt _ _ _ Hk) as Hlt.
    destruct (lookup_lt_is_Some_2 l k Hlt) as [x ->]. discriminate.
  - intros [= <-]. split; [done|].
    destruct (Z_lt_le_dec i (- Z.of_nat (length l))) as [|Hge]; [by left|].
    destruct (Z_lt_le_dec i (Z.of_nat (length l))) as [Hlt|]; [|by right].
    exfalso. destruct (Z_lt_le_dec i 0).
    + rewrite index_of_neg in Hk by lia. discriminate.
    + rewrite index_of_nonneg in Hk by lia. discriminate.
Qed.

Lemma setitem_Raise {A} (l : list A) i v e :
  setitem l i v = Raise e ->
  e = IndexError /\ (i < - Z.of_nat (length l) \/ Z.of_nat (length l) <= i).
Proof.
  unfold setitem.
  destruct (index_of (length l) i) as [k|] eqn:Hk; [discriminate|].
  intros [= <-]. split; [done|].
  destruct (Z_lt_le_dec i (- Z.of_nat (length l))) as [|Hge]; [by left|].
  destruct (Z_lt_le_dec i (Z.of_nat (length l))) as [Hlt|]; [|by right].
  exfalso. destruct (Z_lt_le_dec i 0).
  - rewrite index_of_neg in Hk by lia. discriminate.
  - rewrite index_of_nonneg in Hk by lia. discriminate.
Qed.

(** X16. A load or store whose effective address is at or beyond the
    memory size, or below its negation, raises the index error; the
    exception is not caught, so the run aborts there. *)
Theorem memory_access_out_of_range (m : machine) (w : Z) :
  getitem (memory m) (pc m) = Ok w ->
  0 <= w < 2 ^ 16 ->
  length (regs m) = NUM_REGS ->
  upto 2 (instr_of w) = lit "10" ->
  let A := regs m !!! reg_field 3 6 (instr_of w) + simm7 (instr_of w) in
  A < - Z.of_nat (length (memory m)) \/ Z.of_nat (length (memory m)) <= A ->
  memImm (pc m) (regs m) (memory m) (instr_of w) = Raise IndexError
  /\ cycle m = Raise IndexError
  /\ forall fuel, main_loop (S fuel) false m = Aborted IndexError.
Proof.
  intros Hw Hrange Hregs Hop A HA.
  destruct (instr_of_wf16 w Hrange) as [Hwf _].
  assert (Hh : memImm (pc m) (regs m) (memory m) (instr_of w) = Raise IndexError).
  { rewrite memImm_wf by done. cbn zeta. fold A.
    destruct (wf16_family _ Hwf) as [H|[H|[H|[H|[H|[H|[H|H]]]]]]];
      pose proof (upto_2_of_3 _ _ H) as H2; rewrite Hop in H2;
      try discriminate H2; rewrite H; decide_codes.
    - by rewrite getitem_out.
    - unfold setitem. by rewrite index_of_out. }
  assert (Hc : cycle m = Raise IndexError).
  { by rewrite (cycle_memImm m w Hw Hop), Hh. }
  split; [exact Hh|]. split; [exact Hc|].
  intros fuel. by apply main_loop_aborts.
Qed.

Lemma memory_access_out_of_range_witness :
  let m := Machine 0 [0; 0; 0; 0; 0; 0; 0; 0] [32773; 0; 0] in
  memImm 0 [0; 0; 0; 0; 0; 0; 0; 0] [32773; 0; 0] (instr_of 32773)
  = Raise IndexError
  /\ cycle m = Raise IndexError
  /\ forall fuel, main_loop (S fuel) false m = Aborted IndexError.
Proof.
  apply (memory_access_out_of_range
           (Machine 0 [0; 0; 0; 0; 0; 0; 0; 0] [32773; 0; 0]) 32773);
    try reflexivity; try compute_done.
Defined.

(** X17. When the memory handler returns, the next pc is pc + 1; a load
    left memory alone and changed only its destination register, to the
    cell read; a store left the registers alone and changed only the
    addressed cell, to the source register's value; any other leading
    digits change nothing. *)
Theorem memImm_frame (pc : Z) (regs memory : list Z) (instr : str)
    (pc' : Z) (regs' memory' : list Z) :
  wf16 instr -> length regs = NUM_REGS ->
  memImm pc regs memory instr = Ok (pc', regs', memory') ->
  let A := regs !!! reg_field 3 6 instr + simm7 instr in
  let r := reg_field 6 9 instr in
  pc' = pc + 1
  /\ (upto 3 instr = lit "100" ->
      memory' = memory
      /\ exists k v, index_of (length memory) A = Some k
                     /\ memory !! k = Some v /\ regs' = <[r := v]> regs)
  /\ (upto 3 instr = lit "101" ->
      regs' = regs
      /\ exists k, index_of (length memory) A = Some k
                   /\ memory' = <[k := regs !!! r]> memory)
  /\ (upto 3 instr <> lit "100" -> upto 3 instr <> lit "101" ->
      regs' = regs /\ memory' = memory).
Proof.
  intros Hwf Hregs Hm A r. rewrite memImm_wf in Hm by done. cbn zeta in Hm.
  fold A r in Hm. revert Hm.
  destruct (str_eqb (upto 3 instr) (lit "100")) eqn:E1.
  { apply str_eqb_true in E1.
    intros (v & (k & Hk & Hv)%getitem_Ok & [= <- <- <-])%bind_Ok.
    split; [done|]. split; [|split].
    - intros _. split; [done|]. by exists k, v.
    - intros H. rewrite E1 in H. exfalso. vm_compute in H. discriminate H.
    - intros H. by destruct H. }
  destruct (str_eqb (upto 3 instr) (lit "101")) eqn:E2.
  { apply str_eqb_true in E2. apply str_eqb_false in E1.
    intros (mem1 & (k & Hk & ->)%setitem_Ok & [= <- <- <-])%bind_Ok.
    split; [done|]. split; [|split].
    - intros H. by destruct E1.
    - intros _. split; [done|]. by exists k.
    - intros _ H. by destruct H. }
  apply str_eqb_false in E1, E2. intros [= <- <- <-].
  split; [done|]. split; [|split]; try done.
Qed.

Lemma memImm_frame_witness :
  exists k, index_of (length [0; 0; 0; 0]) (2 + 1) = Some k
            /\ [0; 0; 0; 7] = <[k := 7]> [0; 0; 0; 0].
Proof.
  destruct (memImm_frame 0 [0; 7; 2; 0; 0; 0; 0; 0] [0; 0; 0; 0]
              (lit "1010100010000001") (0 + 1) [0; 7; 2; 0; 0; 0; 0; 0]
              [0; 0; 0; 7] ltac:(compute_done) eq_refl eq_refl)
    as (_ & _ & Hsw & _).
  exact (proj2 (Hsw eq_refl)).
Defined.

(** X18. A load after a store reads the stored value exactly when the two
    effective addresses name the same cell, a negative address and its
    wrapped positive twin included; otherwise it reads what the cell held
    before the store. *)
Theorem load_after_store (pc pc' : Z) (regs memory : list Z) (sw lw : str)
    (ka kb : nat) :
  wf16 sw -> wf16 lw -> length regs = NUM_REGS ->
  upto 3 sw = lit "101" -> upto 3 lw = lit "100" ->
  let A := regs !!! reg_field 3 6 sw + simm7 sw in
  let B := regs !!! reg_field 3 6 lw + simm7 lw in
  index_of (length memory) A = Some ka ->
  index_of (length memory) B = Some kb ->
  let v := regs !!! reg_field 6 9 sw in
  exists memory',
    memImm pc regs memory sw = Ok (pc + 1, regs, memory')
    /\ memImm pc' regs memory' lw
       = Ok (pc' + 1,
             <[reg_field 6 9 lw
               := if decide (ka = kb) then v else memory !!! kb]> regs,
             memory').
Proof.
  intros Hsw Hlw Hregs Hop_sw Hop_lw A B Hka Hkb v.
  pose proof (index_of_lt _ _ _ Hka) as Hlta.
  pose proof (index_of_lt _ _ _ Hkb) as Hltb.
  exists (<[ka := v]> memory). split.
  - rewrite memImm_wf by done. rewrite Hop_sw. decide_codes. fold A v.
    unfold setitem. by rewrite Hka.
  - rewrite memImm_wf by done. rewrite Hop_lw. decide_codes. fold B.
    unfold getitem. rewrite length_insert, Hkb.
    destruct (decide (ka = kb)) as [<- | Hne].
    + by rewrite list_lookup_insert_eq.
    + rewrite list_lookup_insert_ne by done.
      by rewrite (list_lookup_lookup_total_lt memory kb Hltb).
Qed.

Lemma load_after_store_witness :
  exists memory',
    memImm 0 [0; 7; 2; 0; 0; 0; 0; 0] [5; 6; 0; 8]
      (lit "1010100010000001") = Ok (0 + 1, [0; 7; 2; 0; 0; 0; 0; 0], memory')
    /\ memImm 1 [0; 7; 2; 0; 0; 0; 0; 0] memory' (lit "1000000110000001")
       = Ok (1 + 1,
             <[3%nat := if decide (3%nat = 1%nat) then 7
                        else [5; 6; 0; 8] !!! 1%nat]>
               [0; 7; 2; 0; 0; 0; 0; 0],
             memory').
Proof.
  apply (load_after_store 0 1 [0; 7; 2; 0; 0; 0; 0; 0] [5; 6; 0; 8]
           (lit "1010100010000001") (lit "1000000110000001") 3 1);
    try reflexivity; try compute_done.
Defined.

(** ** How a run ends *)

Lemma jump_target_bound instr :
  wf16 instr -> 0 <= val (from 3 instr) < 2 ^ 13.
Proof.
  intros Hwf. pose proof (val_bound (from 3 instr)) as Hb.
  by rewrite (wf16_from_length 3 instr Hwf) in Hb.
Qed.

(** What a cycle that sets [halt] must have been. *)
Lemma cycle_halt_inv m m' :
  cycle m = Ok (m', true) ->
  exists instr,
    fetch m = Ok instr /\ upto 2 instr = lit "01"
    /\ int2 (from 3 instr) = Ok (pc m)
    /\ pc m' = pc m /\ memory m' = memory m.
Proof.
  unfold cycle. intros (instr & Hfetch & H)%bind_Ok. exists instr.
  split; [done|]. revert H.
  destruct (str_eqb _ _).
  { by intros ([pc' regs'] & _ & [= _ ?])%bind_Ok. }
  destruct (_ || _).
  { by intros ([pc' regs'] & _ & [= _ ?])%bind_Ok. }
  destruct (str_eqb _ _).
  { by intros ([[pc' regs'] memory'] & _ & [= _ ?])%bind_Ok. }
  destruct (str_eqb _ _).
  { by intros (pc' & _ & [= _ ?])%bind_Ok. }
  destruct (str_eqb (upto 2 instr) (lit "01")) eqn:E; [|by intros [= _ ?]].
  apply str_eqb_true in E.
  intros ([[imm halted] regs'] & Hj & H)%bind_Ok. split; [done|].
  destruct halted; [|by injection H].
  injection H as <-. cbn [pc memory]. split; [|done].
  unfold j_or_jal in Hj.
  apply bind_Ok in Hj as (regs1 & _ & (imm1 & Himm & Hj)%bind_Ok).
  revert Hj. destruct (Z.eqb_spec (pc m) imm1) as [->|]; [|by intros [= _ ? _]].
  by intros _.
Qed.

(** X19. Only a jump to its own address sets [halt]: a cycle that ends
    with [halt] set fetched a word with leading digits 01 whose target is
    the current pc, and left pc and memory as they were. *)
Theorem halt_only_by_self_jump (m m' : machine) :
  cycle m = Ok (m', true) ->
  exists instr,
    fetch m = Ok instr /\ upto 2 instr = lit "01"
    /\ int2 (from 3 instr) = Ok (pc m)
    /\ pc m' = pc m /\ memory m' = memory m.
Proof. apply cycle_halt_inv. Qed.

Lemma halt_only_by_self_jump_witness :
  exists instr,
    fetch at_self_j = Ok instr /\ upto 2 instr = lit "01"
    /\ int2 (from 3 instr) = Ok (pc at_self_j)
    /\ pc at_self_j = pc at_self_j /\ memory at_self_j = memory at_self_j.
Proof. apply (halt_only_by_self_jump at_self_j at_self_j). reflexivity. Defined.

(** X20. The state handed to [print_state] has its pc in [0, 2^13), and
    the memory cell at that pc holds a jump to that very address. *)
Theorem final_pc_is_self_jump (fuel : nat) (m m' : machine) :
  main_loop fuel false m = Final m' ->
  0 <= pc m' < 2 ^ 13
  /\ exists instr,
       fetch m' = Ok instr /\ upto 2 instr = lit "01"
       /\ val (from 3 instr) = pc m'.
Proof.
  revert m. induction fuel as [|fuel IH]; intros m; cbn [main_loop]; [done|].
  destruct (cycle m) as [[m1 [|]]|e] eqn:Hc; [|by apply IH|done].
  rewrite main_loop_halted. intros [= <-].
  apply cycle_halt_inv in Hc as (instr & Hfetch & Hop & Himm & Hpc & Hmem).
  pose proof (fetch_jump_wf16 _ _ Hfetch Hop) as Hwf.
  rewrite int2_from in Himm by (done || lia). injection Himm as Himm.
  split.
  - rewrite Hpc, <- Himm. by apply jump_target_bound.
  - exists instr. split; [|by rewrite Hpc].
    unfold fetch in *. by rewrite Hpc, Hmem.
Qed.

Lemma final_pc_is_self_jump_witness :
  0 <= 3 < 2 ^ 13
  /\ exists instr,
       fetch (Machine 3 [0; 5; 3; 8; 0; 0; 0; 0] [57477; 57603; 1328; 16387])
       = Ok instr
       /\ upto 2 instr = lit "01" /\ val (from 3 instr) = 3.
Proof.
  apply (final_pc_is_self_jump 10
           (Machine 0 [0; 0; 0; 0; 0; 0; 0; 0] [57477; 57603; 1328; 16387])
           (Machine 3 [0; 5; 3; 8; 0; 0; 0; 0] [57477; 57603; 1328; 16387])).
  reflexivity.
Defined.

(** X21. After an absolute jump the pc is the 13-bit target, inside
    [0, 2^13): with a memory of at least 2^13 cells the fetch that
    follows a jump cannot raise. *)
Theorem jump_lands_in_memory (m m' : machine) (instr : str) (halt : bool) :
  fetch m = Ok instr ->
  upto 2 instr = lit "01" ->
  length (regs m) = NUM_REGS ->
  cycle m = Ok (m', halt) ->
  pc m' = val (from 3 instr)
  /\ 0 <= pc m' < 2 ^ 13
  /\ (2 ^ 13 <= Z.of_nat (length (memory m)) ->
      exists instr', fetch m' = Ok instr').
Proof.
  intros Hfetch Hop Hregs Hc.
  pose proof (fetch_jump_wf16 _ _ Hfetch Hop) as Hwf.
  pose proof (jump_target_bound instr Hwf) as Hb.
  rewrite (cycle_jump m instr Hregs Hfetch Hop) in Hc. cbn zeta in Hc.
  remember (val (from 3 instr)) as imm eqn:Eimm.
  remember (if str_eqb (upto 3 instr) (lit "011")
            then <[7%nat := pc m + 1]> (regs m) else regs m) as regs' eqn:Eregs.
  injection Hc as <- _. cbn [pc memory].
  assert (Hpc : (if pc m =? imm then pc m else imm) = imm).
  { by destruct (Z.eqb_spec (pc m) imm). }
  rewrite Hpc. split; [done|]. split; [done|].
  intros Hsize. unfold fetch. cbn [pc memory].
  rewrite getitem_nonneg by lia. cbn [bind]. by eexists.
Qed.

Lemma jump_lands_in_memory_witness :
  pc (Machine 1 [11; 12; 13; 14; 15; 16; 17; 1] [24577; 0; 0])
  = val (from 3 (lit "0110000000000001"))
  /\ 0 <= pc (Machine 1 [11; 12; 13; 14; 15; 16; 17; 1] [24577; 0; 0]) < 2 ^ 13
  /\ (2 ^ 13 <= Z.of_nat (length (memory at_jal_1)) ->
      exists instr',
        fetch (Machine 1 [11; 12; 13; 14; 15; 16; 17; 1] [24577; 0; 0])
        = Ok instr').
Proof.
  apply (jump_lands_in_memory at_jal_1
           (Machine 1 [11; 12; 13; 14; 15; 16; 17; 1] [24577; 0; 0])
           (lit "0110000000000001") false); reflexivity.
Defined.

(** X22. From a state with eight registers, [MEM_SIZE] cells and all
    words in range, a cycle can only fail with the index error, and only
    in two ways: the pc is outside memory at the fetch, or the word is a
    load or store whose effective address is outside memory.  No word in
    range makes the decoding fail. *)
Theorem only_index_errors (m : machine) (e : exn) :
  state_ok m ->
  cycle m = Raise e ->
  e = IndexError
  /\ ((pc m < - MEM_SIZE \/ MEM_SIZE <= pc m)
      \/ exists w,
           getitem (memory m) (pc m) = Ok w
           /\ upto 2 (instr_of w) = lit "10"
           /\ let A := regs m !!! reg_field 3 6 (instr_of w)
                       + simm7 (instr_of w) in
              A < - MEM_SIZE \/ MEM_SIZE <= A).
Proof.
  intros (Hregs & Hmem & Hlen & Hmlen).
  unfold cycle, fetch.
  destruct (getitem (memory m) (pc m)) as [w|e0] eqn:Hw; cbn [bind].
  2:{ intros [= <-]. apply getitem_Raise in Hw as [-> Hout].
      split; [done|]. left. by rewrite <- Hmlen. }
  assert (Hwok : word_ok w) by (by eapply getitem_Forall).
  destruct (instr_of_wf16 w Hwok) as [Hwf _].
  destruct (str_eqb (upto 3 (instr_of w)) (lit "000")).
  { rewrite threereg_wf by done. cbn zeta.
    by repeat (destruct (str_eqb (last_n 4 _) _); [done|]). }
  destruct (_ || _).
  { rewrite tworegImm_wf by done. cbn zeta.
    by repeat (destruct (str_eqb (upto 3 _) _); [done|]). }
  destruct (str_eqb (upto 2 (instr_of w)) (lit "10")) eqn:E.
  { apply str_eqb_true in E. rewrite memImm_wf by done. cbn zeta.
    set (A := regs m !!! reg_field 3 6 (instr_of w) + simm7 (instr_of w)).
    assert (Hgoal : forall e1,
      (A < - Z.of_nat (length (memory m)) \/ Z.of_nat (length (memory m)) <= A) ->
      e1 = IndexError -> e1 = e ->
      e = IndexError
      /\ ((pc m < - MEM_SIZE \/ MEM_SIZE <= pc m)
          \/ exists w0,
               Ok w = Ok w0
               /\ upto 2 (instr_of w0) = lit "10"
               /\ (regs m !!! reg_field 3 6 (instr_of w0) + simm7 (instr_of w0)
                   < - MEM_SIZE
                   \/ MEM_SIZE <= regs m !!! reg_field 3 6 (instr_of w0)
                                  + simm7 (instr_of w0)))).
    { intros e1 HA -> <-. split; [done|]. right. exists w.
      split; [done|]. split; [done|]. fold A. by rewrite <- Hmlen. }
    destruct (str_eqb (upto 3 _) _).
    { destruct (getitem (memory m) A) as [v|e1] eqn:Hg; cbn [bind]; [done|].
      intros [= He]. apply getitem_Raise in Hg as [He1 Hout].
      by eapply Hgoal. }
    destruct (str_eqb (upto 3 _) _); [|done].
    destruct (setitem (memory m) A _) as [v|e1] eqn:Hs; cbn [bind]; [done|].
    intros [= He]. apply setitem_Raise in Hs as [He1 Hout].
    by eapply Hgoal. }
  destruct (str_eqb (upto 3 (instr_of w)) (lit "110")).
  { rewrite jeq_wf by done. by destruct (_ =? _). }
  destruct (str_eqb (upto 2 (instr_of w)) (lit "01")); [|done].
  destruct (j_or_jal_wf (pc m) (regs m) (instr_of w) Hwf Hlen) as [-> _].
  cbn [bind]. by destruct (_ =? _).
Qed.

Lemma only_index_errors_witness :
  let m := Machine 32768 [0; 0; 0; 0; 0; 0; 0; 0] image_add in
  IndexError = IndexError
  /\ ((pc m < - MEM_SIZE \/ MEM_SIZE <= pc m)
      \/ exists w,
           getitem (memory m) (pc m) = Ok w
           /\ upto 2 (instr_of w) = lit "10"
           /\ let A := regs m !!! reg_field 3 6 (instr_of w)
                       + simm7 (instr_of w) in
              A < - MEM_SIZE \/ MEM_SIZE <= A).
Proof.
  apply (only_index_errors (Machine 32768 [0; 0; 0; 0; 0; 0; 0; 0] image_add)
           IndexError).
  - compute_done.
  - compute_done.
Defined.

(** X23. Whatever the loaded words are, every state the loop reaches has
    eight registers and [MEM_SIZE] memory cells. *)
Theorem machine_shape_invariant (machine_code : list line) (mem : list Z)
    (n : nat) (m : machine) (halt : bool) :
  load_machine_code machine_code (replicate (Z.to_nat MEM_SIZE) 0) = Ok mem ->
  after n (initial mem) = Ok (m, halt) ->
  length (regs m) = NUM_REGS /\ Z.of_nat (length (memory m)) = MEM_SIZE.
Proof.
  intros Hload Hafter. split.
  - by eapply reachable_regs_length.
  - by eapply reachable_memory_size.
Qed.

Lemma machine_shape_invariant_witness :
  length [0; 5; 0; 0; 0; 0; 0; 0] = NUM_REGS
  /\ Z.of_nat (length image_add) = MEM_SIZE.
Proof.
  apply (machine_shape_invariant prog_add image_add 1
           (Machine 1 [0; 5; 0; 0; 0; 0; 0; 0] image_add) false).
  - compute_done.
  - compute_done.
Defined.

(** ** The final report *)

Lemma length_print_regs regs : forall reg,
  length (print_regs reg regs) = length regs.
Proof.
  induction regs as [|v regs IH]; intros reg; cbn [print_regs length]; [done|].
  by rewrite IH.
Qed.

(** The memory loop inside memory: it does not raise, and prints one line
    per multiple of eight passed plus one for a remainder. *)
Lemma print_memory_ok memory : forall (n : nat) a line,
  0 <= a -> a + Z.of_nat n <= Z.of_nat (length memory) ->
  (line = [] <-> a mod 8 = 0) ->
  snd (print_memory memory (seqZ a (Z.of_nat n)) line) = Ok tt
  /\ Z.of_nat (length (fst (print_memory memory (seqZ a (Z.of_nat n)) line)))
     = (a + Z.of_nat n + 7) / 8 - a / 8.
Proof.
  induction n as [|n IH]; intros a line Ha Hlen Hinv.
  - rewrite seqZ_nil by lia. cbn [print_memory fst snd]. split; [done|].
    case_bool_decide as Hl.
    + apply Hinv in Hl. cbn [length]. Z.div_mod_to_equations. lia.
    + assert (a mod 8 <> 0) by (intros H0; by apply Hinv in H0).
      cbn [length]. Z.div_mod_to_equations. lia.
  - rewrite seqZ_cons by lia.
    replace (Z.pred (Z.of_nat (S n))) with (Z.of_nat n) by lia.
    cbn [print_memory]. rewrite getitem_nonneg by lia. cbn zeta.
    set (line' := line ++ format_04x _ ++ lit " ").
    assert (Hne : line' <> []).
    { subst line'. intros H0. apply (f_equal length) in H0.
      rewrite !length_app in H0. cbn in H0. lia. }
    destruct (Z.eqb_spec (a mod 8) 7) as [H7|H7].
    + destruct (IH (Z.succ a) [] ltac:(lia) ltac:(lia)) as [Hs Hl].
      { split; [intros _|done]. Z.div_mod_to_equations. lia. }
      destruct (print_memory memory (seqZ (Z.succ a) (Z.of_nat n)) [])
        as [out r].
      cbn [fst snd] in *. split; [done|]. cbn [length].
      rewrite Nat2Z.inj_succ, Hl. Z.div_mod_to_equations. lia.
    + destruct (IH (Z.succ a) line' ltac:(lia) ltac:(lia)) as [Hs Hl].
      { split; [done|]. intros H0. exfalso. Z.div_mod_to_equations. lia. }
      split; [done|]. rewrite Hl. Z.div_mod_to_equations. lia.
Qed.

(** The memory loop running past the end of memory: it raises at the
    first missing cell, after the complete lines before it. *)
Lemma print_memory_short memory : forall (n : nat) a line,
  0 <= a <= Z.of_nat (length memory) ->
  Z.of_nat (length memory) < a + Z.of_nat n ->
  snd (print_memory memory (seqZ a (Z.of_nat n)) line) = Raise IndexError
  /\ Z.of_nat (length (fst (print_memory memory (seqZ a (Z.of_nat n)) line)))
     = Z.of_nat (length memory) / 8 - a / 8.
Proof.
  induction n as [|n IH]; intros a line Ha Hlen; [lia|].
  rewrite seqZ_cons by lia.
  replace (Z.pred (Z.of_nat (S n))) with (Z.of_nat n) by lia.
  cbn [print_memory].
  destruct (Z_lt_le_dec a (Z.of_nat (length memory))) as [Hlt|Hge].
  - rewrite getitem_nonneg by lia. cbn zeta.
    set (line' := line ++ format_04x _ ++ lit " ").
    destruct (Z.eqb_spec (a mod 8) 7) as [H7|H7].
    + destruct (IH (Z.succ a) [] ltac:(lia) ltac:(lia)) as [Hs Hl].
      destruct (print_memory memory (seqZ (Z.succ a) (Z.of_nat n)) [])
        as [out r].
      cbn [fst snd] in *. split; [done|]. cbn [length].
      rewrite Nat2Z.inj_succ, Hl. Z.div_mod_to_equations. lia.
    + destruct (IH (Z.succ a) line' ltac:(lia) ltac:(lia)) as [Hs Hl].
      split; [done|]. rewrite Hl. Z.div_mod_to_equations. lia.
  - rewrite getitem_out by lia. cbn [fst snd length]. split; [done|].
    replace a with (Z.of_nat (length memory)) by lia. lia.
Qed.

Lemma print_state_lines pc regs memory memquantity :
  0 <= memquantity <= Z.of_nat (length memory) ->
  snd (print_state pc regs memory memquantity) = Ok tt
  /\ Z.of_nat (length (fst (print_state pc regs memory memquantity)))
     = 2 + Z.of_nat (length regs) + (memquantity + 7) / 8.
Proof.
  intros Hq. unfold print_state.
  destruct (print_memory_ok memory (Z.to_nat memquantity) 0 []) as [Hs Hl];
    [lia | lia | done |].
  rewrite Z2Nat.id in Hs, Hl by lia.
  destruct (print_memory memory (seqZ 0 memquantity) []) as [out r].
  cbn [fst snd] in *. split; [done|].
  rewrite !length_app, length_print_regs. cbn [length].
  rewrite !Nat2Z.inj_add, Hl. change (0 / 8) with 0.
  replace (0 + memquantity + 7) with (memquantity + 7) by lia. lia.
Qed.







Lemma all_below_spec k : forall base check,
  all_below k base check = true ->
  forall w, base <= w < base + 2 ^ Z.of_nat k -> check w = true.
Proof.
  induction k as [|k IH]; intros base check; cbn [all_below].
  - intros Hc w Hw. replace w with base by (cbn in Hw; lia). done.
  - intros [H1 H2]%andb_true_iff w Hw.
    rewrite Nat2Z.inj_succ, Z.pow_succ_r in Hw by lia.
    destruct (Z_lt_le_dec w (base + 2 ^ Z.of_nat k)).
    + apply (IH base); [done|lia].
    + apply (IH (base + 2 ^ Z.of_nat k)); [done|lia].
Qed.

(** The two formats on words in range, checked on each of the 2^16
    words. *)
Lemma format_04x_width w : word_ok w -> length (format_04x w) = 4%nat.
Proof.
  intros Hw. apply Nat.eqb_eq.
  apply (all_below_spec 16 0 (fun w => Nat.eqb (length (format_04x w)) 4));
    [|exact Hw].
  vm_compute. reflexivity.
Qed.

Lemma format_5d_width w : word_ok w -> length (format_5d w) = 5%nat.
Proof.
  intros Hw. apply Nat.eqb_eq.
  apply (all_below_spec 16 0 (fun w => Nat.eqb (length (format_5d w)) 5));
    [|exact Hw].
  vm_compute. reflexivity.
Qed.

Lemma print_regs_width regs : forall reg,
  Forall word_ok regs -> (reg + length regs <= 10)%nat ->
  Forall (fun l => length l = 9%nat) (print_regs reg regs).
Proof.
  induction regs as [|v regs IH]; intros reg Hok Hlen; cbn [print_regs];
    [constructor|].
  apply Forall_cons in Hok as [Hv Hok]. cbn [length] in Hlen.
  constructor; [|apply IH; [done|lia]].
  cbn [length]. rewrite !length_app, (format_5d_width v Hv).
  assert (Hreg : length (str_of_int (Z.of_nat reg)) = 1%nat).
  { do 10 (destruct reg as [|reg]; [reflexivity|]). lia. }
  rewrite Hreg. reflexivity.
Qed.

Lemma print_memory_width memory : forall (n : nat) a line,
  Forall word_ok memory ->
  0 <= a -> a + Z.of_nat n <= Z.of_nat (length memory) ->
  (a + Z.of_nat n) mod 8 = 0 ->
  Z.of_nat (length line) = 5 * (a mod 8) ->
  Forall (fun l => length l = 40%nat)
    (fst (print_memory memory (seqZ a (Z.of_nat n)) line)).
Proof.
  induction n as [|n IH]; intros a line Hok Ha Hlen Hend Hline.
  - rewrite seqZ_nil by lia. cbn [print_memory fst].
    replace (a + Z.of_nat 0) with a in Hend by lia.
    case_bool_decide as Hl; [constructor|].
    destruct line; [done|]. cbn [length] in Hline. lia.
  - rewrite seqZ_cons by lia.
    replace (Z.pred (Z.of_nat (S n))) with (Z.of_nat n) by lia.
    cbn [print_memory]. rewrite getitem_nonneg by lia. cbn zeta.
    set (w := memory !!! Z.to_nat a).
    assert (Hw : word_ok w).
    { apply Forall_lookup_total_1; [done|]. lia. }
    set (line' := line ++ format_04x w ++ lit " ").
    assert (Hl' : Z.of_nat (length line') = 5 * (a mod 8) + 5).
    { subst line'. rewrite !length_app, (format_04x_width w Hw).
      cbn [length lit list_ascii_of_string]. lia. }
    destruct (Z.eqb_spec (a mod 8) 7) as [H7|H7].
    + pose proof (IH (Z.succ a) [] Hok ltac:(lia) ltac:(lia)) as Hrec.
      destruct (print_memory memory (seqZ (Z.succ a) (Z.of_nat n)) [])
        as [out r].
      cbn [fst] in *. constructor.
      * lia.
      * apply Hrec.
        -- by replace (Z.succ a + Z.of_nat n) with (a + Z.of_nat (S n)) by lia.
        -- cbn [length]. Z.div_mod_to_equations. lia.
    + apply IH; try done; try lia.
      * by replace (Z.succ a + Z.of_nat n) with (a + Z.of_nat (S n)) by lia.
      * rewrite Hl'. Z.div_mod_to_equations. lia.
Qed.

(** X27. For a state with eight registers, [MEM_SIZE] cells, all words
    and the pc in [0, 2^16), the report of [main] has a fixed layout: the
    heading, a pc line of 9 characters, eight register lines of 9
    characters, and sixteen memory lines of 40 characters (eight groups
    of four hexadecimal digits, each followed by a blank). *)
Theorem report_layout (m : machine) :
  state_ok m -> word_ok (pc m) ->
  exists pcline reglines memlines,
    print_state (pc m) (regs m) (memory m) 128
    = (lit "Final state:" :: pcline :: reglines ++ memlines, Ok tt)
    /\ length pcline = 9%nat
    /\ length reglines = 8%nat
    /\ Forall (fun l => length l = 9%nat) reglines
    /\ length memlines = 16%nat
    /\ Forall (fun l => length l = 40%nat) memlines.
Proof.
  intros (Hregs & Hmem & Hlen & Hmlen) Hpc. unfold print_state.
  assert (Hsize : 0 + Z.of_nat 128 <= Z.of_nat (length (memory m))).
  { rewrite Hmlen. unfold MEM_SIZE. lia. }
  destruct (print_memory_ok (memory m) 128 0 []) as [Hs Hl]; [lia|done|done|].
  pose proof (print_memory_width (memory m) 128 0 [] Hmem ltac:(lia) Hsize
                eq_refl eq_refl) as Hw.
  change (Z.of_nat 128) with 128 in Hs, Hl, Hw.
  destruct (print_memory (memory m) (seqZ 0 128) []) as [out r].
  cbn [fst snd] in *. subst r.
  exists (tab :: lit "pc=" ++ format_5d (pc m)), (print_regs 0 (regs m)), out.
  split; [reflexivity|]. split.
  { cbn [length]. rewrite length_app, (format_5d_width _ Hpc). reflexivity. }
  split; [by rewrite length_print_regs|]. split.
  { apply print_regs_width; [done|]. rewrite Hlen. unfold NUM_REGS. lia. }
  split; [|done].
  change ((0 + 128 + 7) / 8 - 0 / 8) with 16 in Hl. lia.
Qed.

Lemma report_layout_witness :
  exists pcline reglines memlines,
    print_state 3 [0; 5; 3; 8; 0; 0; 0; 0] image_add 128
    = (lit "Final state:" :: pcline :: reglines ++ memlines, Ok tt)
    /\ length pcline = 9%nat
    /\ length reglines = 8%nat
    /\ Forall (fun l => length l = 9%nat) reglines
    /\ length memlines = 16%nat
    /\ Forall (fun l => length l = 40%nat) memlines.
Proof.
  apply (report_layout (Machine 3 [0; 5; 3; 8; 0; 0; 0; 0] image_add)).
  - compute_done.
  - compute_done.
Defined.

(** ** Concrete runs *)

(** The end-to-end scenario: registers 1, 2, 3 hold 5, 3, 8 and the final
    pc is 3. *)
Example prog_add_runs :
  report (main prog_add 10) = Some (3, [0; 5; 3; 8; 0; 0; 0; 0]).
Proof. vm_compute. reflexivity. Qed.

(** A register-indirect jump beyond memory aborts the run at the next
    fetch. *)
Example prog_far_aborts : main prog_far 5 = Aborted IndexError.
Proof. vm_compute. reflexivity. Qed.

(** The text of a word outside [0, 2^16): a negative word keeps the ["b"]
    of [bin], a wide word has more than sixteen digits. *)
Example instr_of_negative : instr_of (-5) = lit "000000000000b101".
Proof. reflexivity. Qed.

Example instr_of_wide : instr_of 131071 = lit "11111111111111111".
Proof. reflexivity. Qed.

(** The loader itself does not bound a word: seventeen digits load as
    they are. *)
Example load_wide_word :
  load_machine_code [Matched 0 (lit "11111111111111111")] [0; 0] = Ok [131071; 0].
Proof. reflexivity. Qed.

Example int2_prefix : int2 (lit "0b1") = Ok 1 /\ int2 (lit "00b") = Raise ValueError.
Proof. split; reflexivity. Qed.

(** A report on three registers and ten memory cells, character for
    character. *)
Example print_state_demo :
  print_state 3 [0; 5; 65535] [57477; 255; 10; 0; 0; 0; 0; 0; 4096; 1] 10
  = ([lit "Final state:";
      tab :: lit "pc=    3";
      tab :: lit "$0=    0";
      tab :: lit "$1=    5";
      tab :: lit "$2=65535";
      lit "e085 00ff 000a 0000 0000 0000 0000 0000 ";
      lit "1000 0001 "], Ok tt).
Proof. reflexivity. Qed.

(** The two formats outside the range of a word: the sign counts in the
    width, and a wide number is not cut. *)
Example format_negative :
  format_5d (-1) = lit "   -1" /\ format_04x (-255) = lit "-0ff"
  /\ format_5d 123456 = lit "123456".
Proof. repeat split. Qed.
